(** * Chat_Webapp: connection registry, presence and delivery status

    A shallow embedding of the real-time core of the chat backend:

    - [app/models/message.py], [app/models/group.py]: the persisted rows;
    - [app/schemas/message.py]: [MessageCreate];
    - [app/redis_client.py]: the presence set [online_users] and the
      one-time passwords;
    - [app/chat/routes.py]: [ConnectionManager], the body of
      [websocket_endpoint], [get_chat_history], [get_group_chat_history];
    - [app/chat/group_routes.py]: [create_group], [get_group_by_id],
      [add_group_member], [remove_group_member].

    Python code that mutates the process state and may raise is written in
    a state-and-exception monad in which the state survives a raise, as it
    does in Python.  Tables are finite maps keyed by their primary key.

    Modelling boundary.

    - Rows.  Column [message_type] is [Enum(MessageType)]: the database
      holds a text, written as it is given and read back by member name;
      a text that is no member name makes every load of the row raise
      [LookupError].  Column [status] is only ever assigned members of
      [MessageStatus] and is kept as the member.  The engine is the
      default one of [app/config.py], SQLite: a negative [LIMIT] is no
      limit, a negative [OFFSET] is 0, an integer compared with a text
      key is compared as its decimal text, integers outside 64 bits
      cannot be bound, foreign keys are not enforced.  The order of rows
      with equal [created_at] under [ORDER BY] is the database's choice:
      it is a parameter of the two history handlers.
    - Sockets.  [accept] and [close] act on the endpoint's own websocket
      and succeed; [close] calls are logged.  [send_json] acts on a
      websocket taken from the registry: it raises [RuntimeError] on one
      the server has closed and [WebSocketDisconnect] on one whose client
      is gone, and logs the frame otherwise.
    - Scheduling.  A step of the transition system is the code one
      coroutine runs between two suspension points.  In
      [websocket_endpoint] the message branch is the only one that
      touches the state after an [await]; it is embedded as written, and
      it raises before its first [await] on every frame (lemma
      [on_message_eq]).  Redis going away or coming back, a client going
      away and a restart of the process are events of the environment. *)

From stdpp Require Import gmap strings list fin_maps sorting pretty.

(** ** Persisted rows *)

Module Models.

(** [class MessageStatus(enum.Enum)] *)
Inductive MessageStatus := SENT | DELIVERED | READ.

(** [class MessageType(enum.Enum)] *)
Inductive MessageType := TEXT | IMAGE | AUDIO | VIDEO | FILE.

#[global] Instance MessageStatus_eq_dec : EqDecision MessageStatus.
Proof. solve_decision. Defined.

#[global] Instance MessageType_eq_dec : EqDecision MessageType.
Proof. solve_decision. Defined.

(** [member.value] *)
Definition MessageType_value (t : MessageType) : string :=
  match t with
  | TEXT => "text" | IMAGE => "image" | AUDIO => "audio"
  | VIDEO => "video" | FILE => "file"
  end.

(** [member.name], the text an [Enum(MessageType)] column holds for it. *)
Definition MessageType_name (t : MessageType) : string :=
  match t with
  | TEXT => "TEXT" | IMAGE => "IMAGE" | AUDIO => "AUDIO"
  | VIDEO => "VIDEO" | FILE => "FILE"
  end.

(** The lookup by name an [Enum(MessageType)] column makes when a row is
    read. *)
Definition MessageType_of_name (s : string) : option MessageType :=
  if decide (s = "TEXT") then Some TEXT
  else if decide (s = "IMAGE") then Some IMAGE
  else if decide (s = "AUDIO") then Some AUDIO
  else if decide (s = "VIDEO") then Some VIDEO
  else if decide (s = "FILE") then Some FILE
  else None.

(** Position of a status on the line sent, delivered, read. *)
Definition rank (st : MessageStatus) : nat :=
  match st with SENT => 0%nat | DELIVERED => 1%nat | READ => 2%nat end.

(** A row of table [messages]; the primary key [id] is the key of the
    table map. [message_type] is the text in the column. *)
Record Message := mkMessage {
  sender_id : string;
  receiver_id : option string;
  group_id : option string;
  content : string;
  message_type : string;
  file_url : option string;
  status : MessageStatus;
  is_deleted : bool;
  created_at : Z
}.

Definition with_status (st : MessageStatus) (m : Message) : Message :=
  {| sender_id := sender_id m; receiver_id := receiver_id m;
     group_id := group_id m; content := content m;
     message_type := message_type m; file_url := file_url m;
     status := st; is_deleted := is_deleted m;
     created_at := created_at m |}.

(** Whether the ORM can build an object from the row. *)
Definition loadable (m : Message) : Prop :=
  is_Some (MessageType_of_name (message_type m)).

#[global] Instance loadable_dec m : Decision (loadable m).
Proof. unfold loadable. apply _. Defined.

(** [message.message_type.value] of a loaded object. *)
Definition message_type_value (m : Message) : string :=
  from_option MessageType_value "" (MessageType_of_name (message_type m)).

(** A row of table [groups]. *)
Record Group := mkGroup {
  g_name : string;
  g_created_by : string
}.

(** A row of table [group_members], keyed by its own [id]. *)
Record GroupMember := mkGroupMember {
  gm_group_id : string;
  gm_user_id : string;
  gm_is_admin : bool
}.

End Models.
Export Models.

(** ** Python values and exceptions *)

Module Py.

(** What [json.loads] can return. An object is the list of its items. *)
#[warnings="-register-all"]
Inductive json :=
| JNull
| JBool (b : bool)
| JNum (n : Z)
| JStr (s : string)
| JArr (items : list json)
| JObj (fields : list (string * json)).

(** The exceptions the modelled code can raise. *)
Inductive exn :=
| JSONDecodeError
| KeyError (key : string)
| TypeError
| ValidationError
| IntegrityError
| StatementError
| OverflowError
| LookupError
| RuntimeError
| RedisError
| WebSocketDisconnect
| HTTPException (status_code : Z) (detail : string).

Inductive result (A : Type) :=
| Ok (a : A)
| Raise (e : exn).
Arguments Ok {A} a.
Arguments Raise {A} e.

#[global] Instance result_ret : MRet result := λ A a, Ok a.
#[global] Instance result_bind : MBind result := λ A B f r,
  match r with Ok a => f a | Raise e => Raise e end.

(** [d.get(k)] on the items of a dict. *)
Fixpoint dict_get (fields : list (string * json)) (k : string) : option json :=
  match fields with
  | [] => None
  | (k', v) :: rest => if decide (k' = k) then Some v else dict_get rest k
  end.

(** [j[k]] with a string key: only a dict can be subscripted that way. *)
Definition subscript (j : json) (k : string) : result json :=
  match j with
  | JObj fields =>
      match dict_get fields k with
      | Some v => Ok v
      | None => Raise (KeyError k)
      end
  | _ => Raise TypeError
  end.

(** [j.get(k)]: the subscripts before it have shown [j] to be a dict. *)
Definition get (j : json) (k : string) : result (option json) :=
  match j with
  | JObj fields => Ok (dict_get fields k)
  | _ => Raise TypeError
  end.

(** [j == "literal"] *)
Definition eq_str (j : json) (s : string) : bool :=
  match j with
  | JStr t => bool_decide (t = s)
  | _ => false
  end.

(** The text of an inbound frame, as [json.loads] sees it. *)
Inductive text :=
| Undecodable
| Encodes (j : json).

Definition json_loads (data : text) : result json :=
  match data with
  | Undecodable => Raise JSONDecodeError
  | Encodes j => Ok j
  end.

End Py.
Export Py.

(** ** Process state *)

(** A WebSocket object, by identity. *)
Definition WebSocket := nat.

(** The ["data"] of an outbound message frame. *)
Record MessageData := mkData {
  d_id : string;
  d_sender_id : string;
  d_receiver_id : option string;
  d_group_id : option string;
  d_content : string;
  d_message_type : string;
  d_file_url : option string;
  d_status : MessageStatus;
  d_created_at : Z
}.

(** Frames written with [send_json]. *)
Inductive out_frame :=
| OutMessage (data : MessageData)
| OutTyping (sender : string) (receiver : json) (is_typing : json)
| OutReadReceipt (message_id : json) (reader : string).

Record State := mkState {
  (** [manager.active_connections] *)
  active_connections : gmap string WebSocket;
  (** the Redis set [online_users] *)
  online_users : gset string;
  (** whether the Redis server answers *)
  redis_up : bool;
  (** primary keys of table [users] *)
  users : gset string;
  (** table [messages] *)
  messages : gmap string Message;
  (** table [groups] *)
  groups : gmap string Group;
  (** table [group_members] *)
  group_members : gmap string GroupMember;
  (** every frame [send_json] has written so far, oldest first *)
  sent : list (WebSocket * out_frame);
  (** every [close] call so far, with its code *)
  closed : list (WebSocket * Z);
  (** the websockets whose client is gone *)
  lost : gset WebSocket;
  (** running [websocket_endpoint] coroutines past authentication, with
      their local [user.id] *)
  sessions : gmap WebSocket string
}.

Definition set_active_connections
    (f : gmap string WebSocket → gmap string WebSocket) (s : State) : State :=
  {| active_connections := f (active_connections s);
     online_users := online_users s; redis_up := redis_up s;
     users := users s; messages := messages s; groups := groups s;
     group_members := group_members s; sent := sent s; closed := closed s;
     lost := lost s; sessions := sessions s |}.

Definition set_online_users
    (f : gset string → gset string) (s : State) : State :=
  {| active_connections := active_connections s;
     online_users := f (online_users s); redis_up := redis_up s;
     users := users s; messages := messages s; groups := groups s;
     group_members := group_members s; sent := sent s; closed := closed s;
     lost := lost s; sessions := sessions s |}.

Definition set_redis_up
    (f : bool → bool) (s : State) : State :=
  {| active_connections := active_connections s;
     online_users := online_users s; redis_up := f (redis_up s);
     users := users s; messages := messages s; groups := groups s;
     group_members := group_members s; sent := sent s; closed := closed s;
     lost := lost s; sessions := sessions s |}.

Definition set_messages
    (f : gmap string Message → gmap string Message) (s : State) : State :=
  {| active_connections := active_connections s;
     online_users := online_users s; redis_up := redis_up s;
     users := users s; messages := f (messages s); groups := groups s;
     group_members := group_members s; sent := sent s; closed := closed s;
     lost := lost s; sessions := sessions s |}.

Definition set_groups
    (f : gmap string Group → gmap string Group) (s : State) : State :=
  {| active_connections := active_connections s;
     online_users := online_users s; redis_up := redis_up s;
     users := users s; messages := messages s; groups := f (groups s);
     group_members := group_members s; sent := sent s; closed := closed s;
     lost := lost s; sessions := sessions s |}.

Definition set_group_members
    (f : gmap string GroupMember → gmap string GroupMember) (s : State) : State :=
  {| active_connections := active_connections s;
     online_users := online_users s; redis_up := redis_up s;
     users := users s; messages := messages s; groups := groups s;
     group_members := f (group_members s); sent := sent s;
     closed := closed s; lost := lost s; sessions := sessions s |}.

Definition set_sent
    (f : list (WebSocket * out_frame) → list (WebSocket * out_frame)) (s : State) : State :=
  {| active_connections := active_connections s;
     online_users := online_users s; redis_up := redis_up s;
     users := users s; messages := messages s; groups := groups s;
     group_members := group_members s; sent := f (sent s);
     closed := closed s; lost := lost s; sessions := sessions s |}.

Definition set_closed
    (f : list (WebSocket * Z) → list (WebSocket * Z)) (s : State) : State :=
  {| active_connections := active_connections s;
     online_users := online_users s; redis_up := redis_up s;
     users := users s; messages := messages s; groups := groups s;
     group_members := group_members s; sent := sent s;
     closed := f (closed s); lost := lost s; sessions := sessions s |}.

Definition set_lost
    (f : gset WebSocket → gset WebSocket) (s : State) : State :=
  {| active_connections := active_connections s;
     online_users := online_users s; redis_up := redis_up s;
     users := users s; messages := messages s; groups := groups s;
     group_members := group_members s; sent := sent s; closed := closed s;
     lost := f (lost s); sessions := sessions s |}.

Definition set_sessions
    (f : gmap WebSocket string → gmap WebSocket string) (s : State) : State :=
  {| active_connections := active_connections s;
     online_users := online_users s; redis_up := redis_up s;
     users := users s; messages := messages s; groups := groups s;
     group_members := group_members s; sent := sent s; closed := closed s;
     lost := lost s; sessions := f (sessions s) |}.

(** ** The monad of handlers: state that survives an exception *)

Definition M (A : Type) : Type := State → result A * State.

#[global] Instance M_ret : MRet M := λ A a s, (Ok a, s).

#[global] Instance M_bind : MBind M := λ A B f m s,
  match m s with
  | (Ok a, s') => f a s'
  | (Raise e, s') => (Raise e, s')
  end.

Definition raise {A} (e : exn) : M A := λ s, (Raise e, s).
Definition gets {A} (f : State → A) : M A := λ s, (Ok (f s), s).
Definition modify (f : State → State) : M unit := λ s, (Ok tt, f s).
Definition lift {A} (r : result A) : M A := λ s, (r, s).

(** [for x in l: body(x)] *)
Fixpoint for_each {A} (l : list A) (body : A → M unit) : M unit :=
  match l with
  | [] => mret tt
  | x :: rest => body x ≫= λ _, for_each rest body
  end.

(** ** app/redis_client.py *)

Definition get_redis_client : M unit :=
  up ← gets redis_up;
  if (up : bool) then mret tt else raise RedisError.

(** [client.sadd("online_users", user_id)] *)
Definition set_user_online (user_id : string) : M bool :=
  _ ← get_redis_client;
  _ ← modify (set_online_users (λ o, {[user_id]} ∪ o));
  mret true.

(** [client.srem("online_users", user_id)] *)
Definition set_user_offline (user_id : string) : M bool :=
  _ ← get_redis_client;
  _ ← modify (set_online_users (λ o, o ∖ {[user_id]}));
  mret true.

(** [client.sismember("online_users", user_id)] *)
Definition is_user_online (user_id : string) : M bool :=
  _ ← get_redis_client;
  gets (λ s, bool_decide (user_id ∈ online_users s)).

(** ** app/chat/routes.py: ConnectionManager *)

(** The websockets on which the server has sent a close. *)
Definition shut (s : State) : list WebSocket := (closed s).*1.

(** A websocket that takes a frame: the server has not closed it and its
    client is there. *)
Definition usable (ws : WebSocket) (s : State) : Prop :=
  ¬ (ws ∈ shut s) ∧ ¬ (ws ∈ lost s).

#[global] Instance usable_dec ws s : Decision (usable ws s).
Proof. unfold usable. apply _. Defined.

(** [websocket.send_json(message)]: refused once a close has been sent on
    the websocket; fails on a transport whose client is gone. *)
Definition send_json (ws : WebSocket) (message : out_frame) : M unit :=
  refused ← gets (λ s, bool_decide (ws ∈ shut s));
  if (refused : bool) then raise RuntimeError
  else
    gone ← gets (λ s, bool_decide (ws ∈ lost s));
    if (gone : bool) then raise WebSocketDisconnect
    else modify (set_sent (λ l, l ++ [(ws, message)])).

Definition close (ws : WebSocket) (code : Z) : M unit :=
  modify (set_closed (λ l, l ++ [(ws, code)])).

(** [await websocket.accept()] comes first: the coroutine resumes with
    the registry write. *)
Definition connect (websocket : WebSocket) (user_id : string) : M unit :=
  _ ← modify (set_active_connections (λ c, <[user_id := websocket]> c));
  _ ← set_user_online user_id;
  mret tt.

Definition disconnect (user_id : string) : M unit :=
  conns ← gets active_connections;
  _ ← (if decide (is_Some (conns !! user_id))
       then modify (set_active_connections (λ c, delete user_id c))
       else mret tt);
  _ ← set_user_offline user_id;
  mret tt.

Definition send_personal_message (message : out_frame) (user_id : string) : M unit :=
  conns ← gets active_connections;
  match conns !! user_id with
  | Some ws => send_json ws message
  | None => mret tt
  end.


(** ** app/chat/routes.py: websocket_endpoint *)

(** [class MessageCreate(MessageBase)] after validation. Its [Config] has
    [use_enum_values = True]: [message_type] is the member's value. *)
Record MessageCreate := mkMessageCreate {
  mc_content : string;
  mc_message_type : string;
  mc_file_url : option string;
  mc_receiver_id : option string;
  mc_group_id : option string
}.

(** Field [content: str]. *)
Definition validate_str (j : json) : result string :=
  match j with
  | JStr s => Ok s
  | _ => Raise ValidationError
  end.

(** Fields [Optional[str] = None], fed from [.get(key)]. *)
Definition validate_optional_str (j : option json) : result (option string) :=
  match j with
  | None | Some JNull => Ok None
  | Some (JStr s) => Ok (Some s)
  | Some _ => Raise ValidationError
  end.

(** Field [message_type: MessageType], fed from
    [.get("message_type", MessageType.TEXT)]: a text is looked up among
    the members' values. *)
Definition validate_message_type (j : option json) : result MessageType :=
  match j with
  | None => Ok TEXT
  | Some (JStr s) =>
      if decide (s = "text") then Ok TEXT
      else if decide (s = "image") then Ok IMAGE
      else if decide (s = "audio") then Ok AUDIO
      else if decide (s = "video") then Ok VIDEO
      else if decide (s = "file") then Ok FILE
      else Raise ValidationError
  | Some _ => Raise ValidationError
  end.

(** [MessageCreate(content=message_data["data"]["content"], ...)]: the
    argument expressions are evaluated left to right, then validated. *)
Definition make_MessageCreate (message_data : json) : result MessageCreate :=
  a_content ← (d ← subscript message_data "data"; subscript d "content");
  a_message_type ← (d ← subscript message_data "data"; get d "message_type");
  a_file_url ← (d ← subscript message_data "data"; get d "file_url");
  a_receiver_id ← (d ← subscript message_data "data"; get d "receiver_id");
  a_group_id ← (d ← subscript message_data "data"; get d "group_id");
  v_content ← validate_str a_content;
  v_message_type ← validate_message_type a_message_type;
  v_file_url ← validate_optional_str a_file_url;
  v_receiver_id ← validate_optional_str a_receiver_id;
  v_group_id ← validate_optional_str a_group_id;
  mret (mkMessageCreate v_content (MessageType_value v_message_type)
          v_file_url v_receiver_id v_group_id).

(** Truth value of an [Optional[str]]: [None] and the empty string are
    false. *)
Definition truthy (o : option string) : bool :=
  match o with
  | Some s => bool_decide (s ≠ "")
  | None => false
  end.

(** Building an object from a row. *)
Definition load (row : string * Message) : M (string * Message) :=
  if decide (loadable row.2) then mret row else raise LookupError.

(** [db.add(db_message); db.commit(); db.refresh(db_message)]: the commit
    stores the row, the refresh reads it back. *)
Definition db_add_message (id : string) (m : Message) : M unit :=
  tbl ← gets messages;
  match tbl !! id with
  | Some _ => raise IntegrityError
  | None =>
      _ ← modify (set_messages (λ t, <[id := m]> t));
      _ ← load (id, m);
      mret tt
  end.

(** [row.status = st; db.commit()] for the row with primary key [id]. *)
Definition db_set_status (id : string) (st : MessageStatus) : M unit :=
  modify (set_messages (λ t, alter (with_status st) id t)).

(** The [response["data"]] dictionary built from a row. *)
Definition response_data (id : string) (m : Message) : MessageData :=
  {| d_id := id; d_sender_id := sender_id m; d_receiver_id := receiver_id m;
     d_group_id := group_id m; d_content := content m;
     d_message_type := message_type_value m; d_file_url := file_url m;
     d_status := status m; d_created_at := created_at m |}.

(** [group.members]: the rows of [group_members] that point to the group. *)
Definition members_of (g : string) (s : State) : list (string * GroupMember) :=
  filter (λ kv, gm_group_id kv.2 = g) (map_to_list (group_members s)).

(** What the environment supplies to one loop iteration: the value of
    [uuid.uuid4()] and the database clock behind [created_at]. *)
Record Env := mkEnv {
  uuid4 : string;
  now : Z
}.

(** Branch [message_data["type"] == "message"]. *)
Definition on_message (user : string) (message_data : json) (env : Env) : M unit :=
  message_create ← lift (make_MessageCreate message_data);
  let id := uuid4 env in
  let db_message :=
    {| sender_id := user;
       receiver_id := mc_receiver_id message_create;
       group_id := mc_group_id message_create;
       content := mc_content message_create;
       message_type := mc_message_type message_create;
       file_url := mc_file_url message_create;
       status := SENT;
       is_deleted := false;
       created_at := now env |} in
  _ ← db_add_message id db_message;
  let response := OutMessage (response_data id db_message) in
  _ ← (if truthy (receiver_id db_message) then
         let r := default "" (receiver_id db_message) in
         _ ← send_personal_message response r;
         online ← is_user_online r;
         if (online : bool) then db_set_status id DELIVERED else mret tt
       else if truthy (group_id db_message) then
         let g := default "" (group_id db_message) in
         group ← gets (λ s, groups s !! g);
         match group with
         | Some _ =>
             members ← gets (members_of g);
             for_each members (λ member,
               if decide (gm_user_id member.2 ≠ user)
               then send_personal_message response (gm_user_id member.2)
               else mret tt)
         | None => mret tt
         end
       else mret tt);
  send_personal_message response user.

(** [send_personal_message(message, key)] when the key comes straight from
    the frame: a list or a dict is unhashable, other non-strings are no
    key of [active_connections]. *)
Definition send_personal_message_dyn (message : out_frame) (key : json) : M unit :=
  match key with
  | JStr user_id => send_personal_message message user_id
  | JArr _ | JObj _ => raise TypeError
  | _ => mret tt
  end.

(** Branch [message_data["type"] == "typing"]. *)
Definition on_typing (user : string) (message_data : json) : M unit :=
  receiver_id ← lift (d ← subscript message_data "data"; subscript d "receiver_id");
  is_typing ← lift (d ← subscript message_data "data"; subscript d "is_typing");
  send_personal_message_dyn (OutTyping user receiver_id is_typing) receiver_id.

(** Integers the database driver can bind. *)
Definition int64 (n : Z) : Prop := (- 2 ^ 63 ≤ n < 2 ^ 63)%Z.

#[global] Instance int64_dec n : Decision (int64 n).
Proof. unfold int64. apply _. Defined.

(** The key that [Message.id == message_id] compares the text column
    with: a number (a boolean is 0 or 1) counts as its decimal text,
    [None] makes the test [IS NULL], which no row passes; a list or a
    dict cannot be bound as a parameter. *)
Definition id_key (message_id : json) : result (option string) :=
  match message_id with
  | JStr id => Ok (Some id)
  | JNum n => if decide (int64 n) then Ok (Some (pretty n)) else Raise OverflowError
  | JBool b => Ok (Some (if b then "1" else "0"))
  | JNull => Ok None
  | JArr _ | JObj _ => Raise StatementError
  end.

(** [db.query(Message).filter(Message.id == message_id).first()] *)
Definition query_message (message_id : json) : M (option (string * Message)) :=
  key ← lift (id_key message_id);
  match key with
  | None => mret None
  | Some id =>
      row ← gets (λ s, messages s !! id);
      match row with
      | None => mret None
      | Some m => row ← load (id, m); mret (Some row)
      end
  end.

(** Branch [message_data["type"] == "read_receipt"]. *)
Definition on_read_receipt (user : string) (message_data : json) : M unit :=
  message_id ← lift (d ← subscript message_data "data"; subscript d "message_id");
  message ← query_message message_id;
  match message with
  | Some (id, m) =>
      if decide (receiver_id m = Some user) then
        _ ← db_set_status id READ;
        send_personal_message (OutReadReceipt message_id user) (sender_id m)
      else mret tt
  | None => mret tt
  end.

(** What [websocket.receive_text()] meets. *)
Inductive inbound :=
| Recv (data : text)
| ClientGone.

Definition receive_text (inp : inbound) : M text :=
  match inp with
  | Recv data => mret data
  | ClientGone => raise WebSocketDisconnect
  end.

(** One pass through the body of [while True]. *)
Definition loop_body (user : string) (inp : inbound) (env : Env) : M unit :=
  data ← receive_text inp;
  message_data ← lift (json_loads data);
  ty ← lift (subscript message_data "type");
  if eq_str ty "message" then on_message user message_data env
  else
    ty ← lift (subscript message_data "type");
    if eq_str ty "typing" then on_typing user message_data
    else
      ty ← lift (subscript message_data "type");
      if eq_str ty "read_receipt" then on_read_receipt user message_data
      else mret tt.

(** [get_current_user]: the token's decoded payload is [None] when
    [jwt.decode] raises, [Some None] when it has no ["sub"]. *)
Definition get_current_user (payload : option (option string)) : M string :=
  match payload with
  | Some (Some user_id) =>
      known ← gets (λ s, bool_decide (user_id ∈ users s));
      if (known : bool) then mret user_id
      else raise (HTTPException 401 "Could not validate credentials")
  | _ => raise (HTTPException 401 "Could not validate credentials")
  end.

(** Whether the coroutine is still in its loop. *)
Inductive session := Open | Closed.

(** [websocket_endpoint] up to the loop: authenticate, then register. *)
Definition websocket_endpoint_enter (websocket : WebSocket)
    (payload : option (option string)) (s : State) : session * State :=
  match (user ← get_current_user payload;
         _ ← connect websocket user;
         modify (set_sessions (λ t, <[websocket := user]> t))) s with
  | (Ok _, s1) => (Open, s1)
  | (Raise _, s1) => (Closed, (close websocket 1008 s1).2)
  end.

(** [websocket_endpoint], one iteration of the loop under its two
    handlers: [except WebSocketDisconnect] around the loop, and
    [except Exception] around everything. *)
Definition websocket_endpoint_iter (websocket : WebSocket) (user : string)
    (inp : inbound) (env : Env) (s : State) : session * State :=
  match loop_body user inp env s with
  | (Ok _, s1) => (Open, s1)
  | (Raise WebSocketDisconnect, s1) =>
      match disconnect user s1 with
      | (Ok _, s2) => (Closed, s2)
      | (Raise _, s2) => (Closed, (close websocket 1008 s2).2)
      end
  | (Raise _, s1) => (Closed, (close websocket 1008 s1).2)
  end.

(** ** app/chat/routes.py: get_chat_history *)

(** The filter of both queries: the messages between the two users. *)
Definition between (a b : string) (m : Message) : Prop :=
  (sender_id m = a ∧ receiver_id m = Some b) ∨
  (sender_id m = b ∧ receiver_id m = Some a).

#[global] Instance between_dec a b m : Decision (between a b m).
Proof. unfold between. apply _. Defined.

(** [order_by(Message.created_at.desc())] *)
Definition newest_first (x y : string * Message) : Prop :=
  (created_at y.2 ≤ created_at x.2)%Z.

#[global] Instance newest_first_dec x y : Decision (newest_first x y).
Proof. unfold newest_first. apply _. Defined.

Definition conversation (a b : string) (s : State) : list (string * Message) :=
  filter (λ kv, between a b kv.2) (map_to_list (messages s)).

(** What the database may answer to [order_by(Message.created_at.desc())]:
    the rows it was given, newest first; among rows of one time stamp the
    order is its own. *)
Definition newest_first_order
    (order_by : list (string * Message) → list (string * Message)) : Prop :=
  ∀ rows, order_by rows ≡ₚ rows ∧ StronglySorted newest_first (order_by rows).

(** [.offset(skip).limit(limit)] on the ordered rows: the query parameters
    are any integers; a negative offset counts as 0 and a negative limit
    as none. *)
Definition page (skip limit : Z) (rows : list (string * Message))
    : list (string * Message) :=
  let rest := drop (Z.to_nat skip) rows in
  if decide (limit < 0)%Z then rest else take (Z.to_nat limit) rest.

(** Binding [skip] and [limit] as parameters of the statement. *)
Definition bind_int (n : Z) : M unit :=
  if decide (int64 n) then mret tt else raise OverflowError.

(** [.all()]: an object is built from every row of the answer, in order. *)
Fixpoint load_all (rows : list (string * Message)) : M (list (string * Message)) :=
  match rows with
  | [] => mret []
  | row :: rest =>
      row ← load row;
      rest ← load_all rest;
      mret (row :: rest)
  end.

(** The test of the marking loop. *)
Definition unread_by (current_user : string) (m : Message) : Prop :=
  receiver_id m = Some current_user ∧ status m ≠ READ.

#[global] Instance unread_by_dec u m : Decision (unread_by u m).
Proof. unfold unread_by. apply _. Defined.

(** [order_by] is the database's ordering of the rows of this query. *)
Definition get_chat_history (user_id : string) (skip limit : Z)
    (current_user : string)
    (order_by : list (string * Message) → list (string * Message))
    : M (list (string * Message) * nat) :=
  rows ← gets (conversation current_user user_id);
  _ ← bind_int limit;
  _ ← bind_int skip;
  messages ← load_all (page skip limit (order_by rows));
  let total := length rows in
  _ ← for_each messages (λ message,
        if decide (unread_by current_user message.2)
        then db_set_status message.1 READ
        else mret tt);
  mret (map (λ message,
          if decide (unread_by current_user message.2)
          then (message.1, with_status READ message.2)
          else message) messages,
        total).

(** ** app/chat/group_routes.py: remove_group_member *)

(** The rows counted by [admin_count]. *)
Definition admins_of (group_id : string) (s : State) : gmap string GroupMember :=
  filter (λ kv, gm_group_id kv.2 = group_id ∧ gm_is_admin kv.2 = true)
         (group_members s).

Definition admin_count (group_id : string) (s : State) : nat :=
  size (admins_of group_id s).

(** Whether the query for an admin row of [user] in the group finds one. *)
Definition is_admin_of (group_id user : string) (s : State) : bool :=
  bool_decide
    (filter (λ kv, gm_group_id kv.2 = group_id ∧ gm_user_id kv.2 = user
                   ∧ gm_is_admin kv.2 = true) (group_members s) ≠ ∅).

(** The row with primary key [member_id], if it belongs to the group. *)
Definition member_in (group_id member_id : string) (s : State) : option GroupMember :=
  match group_members s !! member_id with
  | Some member =>
      if decide (gm_group_id member = group_id) then Some member else None
  | None => None
  end.

Definition remove_group_member (group_id member_id : string)
    (current_user : string) : M unit :=
  group ← gets (λ s, groups s !! group_id);
  match group with
  | None => raise (HTTPException 404 "Group not found")
  | Some _ =>
      is_admin ← gets (is_admin_of group_id current_user);
      member ← gets (member_in group_id member_id);
      match member with
      | None => raise (HTTPException 404 "Member not found in this group")
      | Some member =>
          if decide (gm_user_id member ≠ current_user ∧ is_admin = false)
          then raise (HTTPException 403 "Only group admins can remove other members")
          else
            _ ← (if gm_is_admin member then
                   count ← gets (admin_count group_id);
                   if decide (count ≤ 1)%nat
                   then raise (HTTPException 400
                                 "Cannot remove the last admin from the group")
                   else mret tt
                 else mret tt);
            modify (set_group_members (λ t, delete member_id t))
      end
  end.

(** ** The server as a transition system *)

Inductive event :=
| Enter (websocket : WebSocket) (payload : option (option string))
| Iterate (websocket : WebSocket) (inp : inbound) (env : Env)
| GetChatHistory (user_id : string) (skip limit : Z) (current_user : string)
    (order_by : list (string * Message) → list (string * Message))
| RemoveGroupMember (group_id member_id : string) (current_user : string)
| Drop (websocket : WebSocket)
| RedisDown
| RedisUp
| Restart.

(** A WebSocket object nothing has happened to yet. *)
Definition unused (ws : WebSocket) (s : State) : Prop :=
  sessions s !! ws = None ∧ usable ws s.

#[global] Instance unused_dec ws s : Decision (unused ws s).
Proof. unfold unused. apply _. Defined.

(** The process starts again: registry and coroutines are gone, and so
    are the clients of the websockets that were open; the database and
    the Redis server are as they were. *)
Definition restart (s : State) : State :=
  set_sessions (λ _, ∅)
    (set_active_connections (λ _, ∅)
       (set_lost (λ l, l ∪ dom (sessions s)) s)).

(** One step. A WebSocket object enters once; only a coroutine that is in
    its loop can iterate, and it leaves [sessions] when the loop ends. A
    receive that finds the client gone leaves the websocket without
    client. *)
Definition step (e : event) (s : State) : State :=
  match e with
  | Enter websocket payload =>
      if decide (unused websocket s)
      then (websocket_endpoint_enter websocket payload s).2
      else s
  | Iterate websocket inp env =>
      match sessions s !! websocket with
      | Some user =>
          let s0 :=
            match inp with
            | ClientGone => set_lost (λ l, l ∪ {[websocket]}) s
            | Recv _ => s
            end in
          match websocket_endpoint_iter websocket user inp env s0 with
          | (Open, s') => s'
          | (Closed, s') => set_sessions (λ t, delete websocket t) s'
          end
      | None => s
      end
  | GetChatHistory user_id skip limit current_user order_by =>
      (get_chat_history user_id skip limit current_user order_by s).2
  | RemoveGroupMember group_id member_id current_user =>
      (remove_group_member group_id member_id current_user s).2
  | Drop websocket => set_lost (λ l, l ∪ {[websocket]}) s
  | RedisDown => set_redis_up (λ _, false) s
  | RedisUp => set_redis_up (λ _, true) s
  | Restart => restart s
  end.

Fixpoint run (evs : list event) (s : State) : State :=
  match evs with
  | [] => s
  | e :: rest => run rest (step e s)
  end.


(** A fresh process: nobody connected, nothing sent, given tables. *)
Definition boot (us : gset string) (ms : gmap string Message)
    (gs : gmap string Group) (gms : gmap string GroupMember) : State :=
  {| active_connections := ∅; online_users := ∅; redis_up := true;
     users := us; messages := ms; groups := gs; group_members := gms;
     sent := []; closed := []; lost := ∅; sessions := ∅ |}.

(** Registry and presence agree. *)
Definition presence_consistent (s : State) : Prop :=
  ∀ u : string, u ∈ online_users s ↔ is_Some (active_connections s !! u).

(** What [send_personal_message message user_id] appends to the log. *)
Definition pushed (s : State) (user_id : string) (message : out_frame)
    : list (WebSocket * out_frame) :=
  match active_connections s !! user_id with
  | Some ws => [(ws, message)]
  | None => []
  end.

(** ** Vocabulary of the statements *)

(** A relation that every run of a computation establishes between the
    state before and the state after, whether it returns or raises. *)
Definition keeps {A} (R : relation State) (m : M A) : Prop :=
  ∀ s, R s (m s).2.

(** An invariant seen as a relation. *)
Definition maintains (I : State → Prop) : relation State :=
  λ s s', I s → I s'.

Definition same_presence (s s' : State) : Prop :=
  active_connections s' = active_connections s
  ∧ online_users s' = online_users s
  ∧ redis_up s' = redis_up s.

(** Redis answers, and registry and presence agree. *)
Definition presence_inv (s : State) : Prop :=
  redis_up s = true ∧ presence_consistent s.

(** Every row is still there, changed in its status at most, and its
    status is not lower than before. *)
Definition forward (s s' : State) : Prop :=
  ∀ id m, messages s !! id = Some m →
    ∃ st, messages s' !! id = Some (with_status st m)
          ∧ (rank (status m) ≤ rank st)%nat.



(** The row that [on_message] stores. *)
Definition new_row (user : string) (mc : MessageCreate) (env : Env) : Message :=
  {| sender_id := user; receiver_id := mc_receiver_id mc;
     group_id := mc_group_id mc; content := mc_content mc;
     message_type := mc_message_type mc; file_url := mc_file_url mc;
     status := SENT; is_deleted := false; created_at := now env |}.

(** The marking loop of [get_chat_history] on one fetched row. *)
Definition mark_read (cur : string) (t : gmap string Message)
    (message : string * Message) : gmap string Message :=
  if decide (unread_by cur message.2)
  then alter (with_status READ) message.1 t else t.

(** The test that lets a removal request through to the admin count. *)
Definition permitted (group_id current_user : string) (member : GroupMember)
    (s : State) : Prop :=
  gm_user_id member = current_user ∨ is_admin_of group_id current_user s = true.

Definition same_members (s s' : State) : Prop :=
  group_members s' = group_members s.

(** No group loses its last admin. *)
Definition admins_kept (s s' : State) : Prop :=
  ∀ g, (1 ≤ admin_count g s)%nat → (1 ≤ admin_count g s')%nat.

(** A decoded frame of type ["message"] that validates to [mc]. *)
Definition message_frame (md : json) (mc : MessageCreate) : Prop :=
  (∃ ty, subscript md "type" = Ok ty ∧ eq_str ty "message" = true)
  ∧ make_MessageCreate md = Ok mc.

(** A decoded frame of type ["read_receipt"] that names message [id]. *)
Definition read_receipt_frame (md : json) (id : string) : Prop :=
  (∃ ty, subscript md "type" = Ok ty ∧ eq_str ty "read_receipt" = true)
  ∧ (d ← subscript md "data"; subscript d "message_id") = Ok (JStr id).

(** A frame that cannot be decoded, has no usable ["type"], or is a
    message whose fields are missing or ill-typed. *)
Definition malformed (data : text) : Prop :=
  match data with
  | Undecodable => True
  | Encodes md =>
      (∃ e, subscript md "type" = Raise e)
      ∨ (∃ ty e, subscript md "type" = Ok ty ∧ eq_str ty "message" = true
                 ∧ make_MessageCreate md = Raise e)
  end.

(** ** Concrete scenarios *)

Module Demo.

Definition people : gset string := {[ "alice"; "bob"; "carol" ]}.

Definition club : gmap string Group := {[ "g1" := mkGroup "club" "alice" ]}.

(** alice administers g1, bob is a plain member, carol is no member. *)
Definition roster : gmap string GroupMember :=
  <[ "r1" := mkGroupMember "g1" "alice" true ]>
    (<[ "r2" := mkGroupMember "g1" "bob" false ]> ∅).

Definition token (u : string) : option (option string) := Some (Some u).

Definition fresh : State := boot people ∅ club roster.

(** alice on websocket 1, bob on websocket 2. *)
Definition lobby : State := run [Enter 1 (token "alice"); Enter 2 (token "bob")] fresh.

(** Only alice connected. *)
Definition alone : State := run [Enter 1 (token "alice")] fresh.

(** All three connected. *)
Definition hall : State :=
  run [Enter 1 (token "alice"); Enter 2 (token "bob"); Enter 3 (token "carol")]
      fresh.

(** alice connected twice; websocket 2 is the registered one. *)
Definition two_tabs : State :=
  run [Enter 1 (token "alice"); Enter 2 (token "alice")] fresh.

Definition direct (c r : string) : json :=
  JObj [("type", JStr "message");
        ("data", JObj [("content", JStr c); ("receiver_id", JStr r)])].

Definition to_group (c g : string) : json :=
  JObj [("type", JStr "message");
        ("data", JObj [("content", JStr c); ("group_id", JStr g)])].

Definition no_content (r : string) : json :=
  JObj [("type", JStr "message"); ("data", JObj [("receiver_id", JStr r)])].

Definition receipt (id : string) : json :=
  JObj [("type", JStr "read_receipt"); ("data", JObj [("message_id", JStr id)])].

Definition from_bob (c : string) (st : MessageStatus) (t : Z) : Message :=
  mkMessage "bob" (Some "alice") None c "TEXT" None st false t.

(** Two unread messages from bob to alice, ["m1"] older than ["m2"]. *)
Definition inbox : gmap string Message :=
  <[ "m1" := from_bob "one" SENT 1 ]> (<[ "m2" := from_bob "two" SENT 2 ]> ∅).

Definition mailbox : State := boot people inbox club roster.

(** A delivered message ["m1"] from bob to alice is in the table, both
    are connected. *)
Definition chatting : State :=
  run [Enter 1 (token "alice"); Enter 2 (token "bob")]
      (boot people {[ "m1" := from_bob "hi" DELIVERED 5 ]} club roster).

End Demo.

(** ** The rest of the cited modules *)

(** *** app/redis_client.py: get_online_users *)

(** [client.smembers("online_users")] *)
Definition get_online_users : M (gset string) :=
  _ ← get_redis_client;
  gets online_users.

(** *** app/chat/routes.py: get_group_chat_history *)

(** The filter [Message.group_id == group_id] of both queries. *)
Definition group_rows (g : string) (s : State) : list (string * Message) :=
  filter (λ kv, group_id kv.2 = Some g) (map_to_list (messages s)).

(** [any(member.user_id == current_user.id for member in group.members)] *)
Definition is_member_of (g current_user : string) (s : State) : bool :=
  existsb (λ member, bool_decide (gm_user_id member.2 = current_user))
          (members_of g s).

Definition get_group_chat_history (g : string) (skip limit : Z)
    (current_user : string)
    (order_by : list (string * Message) → list (string * Message))
    : M (list (string * Message) * nat) :=
  group ← gets (λ s, groups s !! g);
  match group with
  | None => raise (HTTPException 404 "Group not found")
  | Some _ =>
      is_member ← gets (is_member_of g current_user);
      if (is_member : bool) then
        rows ← gets (group_rows g);
        _ ← bind_int limit;
        _ ← bind_int skip;
        messages ← load_all (page skip limit (order_by rows));
        mret (messages, length rows)
      else raise (HTTPException 403 "You are not a member of this group")
  end.

(** *** app/chat/group_routes.py: create_group, get_group_by_id,
    add_group_member *)

(** [db.add(group); db.commit(); db.refresh(group)] *)
Definition db_add_group (id : string) (group : Group) : M unit :=
  tbl ← gets groups;
  match tbl !! id with
  | Some _ => raise IntegrityError
  | None => modify (set_groups (λ t, <[id := group]> t))
  end.

(** [db.add(group_member); db.commit()] *)
Definition db_add_group_member (id : string) (member : GroupMember) : M unit :=
  tbl ← gets group_members;
  match tbl !! id with
  | Some _ => raise IntegrityError
  | None => modify (set_group_members (λ t, <[id := member]> t))
  end.

(** [create_group]: the two [uuid.uuid4()] values come from the
    environment; of [group_data] the row model keeps the name. The group
    row is committed before the creator's membership row is added. *)
Definition create_group (group_name : string) (current_user : string)
    (group_uuid member_uuid : string) : M (string * Group) :=
  let group := mkGroup group_name current_user in
  _ ← db_add_group group_uuid group;
  let group_member := mkGroupMember group_uuid current_user true in
  _ ← db_add_group_member member_uuid group_member;
  mret (group_uuid, group).

(** Whether the query for a row of [user] in the group finds one. *)
Definition has_member_row (g user : string) (s : State) : bool :=
  bool_decide
    (filter (λ kv, gm_group_id kv.2 = g ∧ gm_user_id kv.2 = user)
            (group_members s) ≠ ∅).

Definition get_group_by_id (g current_user : string) : M Group :=
  group ← gets (λ s, groups s !! g);
  match group with
  | None => raise (HTTPException 404 "Group not found")
  | Some group =>
      is_member ← gets (has_member_row g current_user);
      if (is_member : bool) then mret group
      else raise (HTTPException 403 "You are not a member of this group")
  end.

(** [add_group_member]: [user_id] and [is_admin] are the fields of
    [member_data]. *)
Definition add_group_member (g : string) (user_id : string) (is_admin : bool)
    (current_user : string) (uuid : string) : M (string * GroupMember) :=
  group ← gets (λ s, groups s !! g);
  match group with
  | None => raise (HTTPException 404 "Group not found")
  | Some _ =>
      caller_is_admin ← gets (is_admin_of g current_user);
      if negb caller_is_admin
      then raise (HTTPException 403 "Only group admins can add members")
      else
        user ← gets (λ s, bool_decide (user_id ∈ users s));
        if negb user then raise (HTTPException 404 "User not found")
        else
          existing_member ← gets (has_member_row g user_id);
          if (existing_member : bool)
          then raise (HTTPException 400
                        "User is already a member of this group")
          else
            let group_member := mkGroupMember g user_id is_admin in
            _ ← db_add_group_member uuid group_member;
            mret (uuid, group_member)
  end.

(** *** Requests of every kind *)

Inductive request :=
| Server (e : event)
| CreateGroup (group_name current_user group_uuid member_uuid : string)
| AddGroupMember (g user_id : string) (is_admin : bool)
    (current_user uuid : string).

Definition serve (r : request) (s : State) : State :=
  match r with
  | Server e => step e s
  | CreateGroup group_name current_user group_uuid member_uuid =>
      (create_group group_name current_user group_uuid member_uuid s).2
  | AddGroupMember g user_id is_admin current_user uuid =>
      (add_group_member g user_id is_admin current_user uuid s).2
  end.

Fixpoint serve_all (rs : list request) (s : State) : State :=
  match rs with
  | [] => s
  | r :: rest => serve_all rest (serve r s)
  end.

(** Every membership row points to a stored group, and no user has two
    rows in one group. *)
Definition roster_ok (s : State) : Prop :=
  (∀ id row, group_members s !! id = Some row →
     is_Some (groups s !! gm_group_id row))
  ∧ (∀ id1 id2 row1 row2,
       group_members s !! id1 = Some row1 →
       group_members s !! id2 = Some row2 →
       gm_group_id row1 = gm_group_id row2 →
       gm_user_id row1 = gm_user_id row2 → id1 = id2).

Definition same_group_tables (s s' : State) : Prop :=
  groups s' = groups s ∧ group_members s' = group_members s.

(** A row as the response of [get_chat_history] shows it: the rows are
    serialised after the marking loop has run over them. *)
Definition shown (cur : string) (message : string * Message) : string * Message :=
  if decide (unread_by cur message.2)
  then (message.1, with_status READ message.2) else message.

(** A decoded frame of type ["typing"] with its two fields. *)
Definition typing_frame (md : json) (receiver is_typing : json) : Prop :=
  (∃ ty, subscript md "type" = Ok ty ∧ eq_str ty "typing" = true)
  ∧ (d ← subscript md "data"; subscript d "receiver_id") = Ok receiver
  ∧ (d ← subscript md "data"; subscript d "is_typing") = Ok is_typing.

(** *** app/redis_client.py: the one-time passwords *)

(** The keys [otp:<user_id>] of the Redis server: value and deadline, on
    the server's clock in milliseconds. The server drops a key when its
    clock has passed the deadline. *)
Record Redis := mkRedis {
  reachable : bool;
  clock : Z;
  strings : gmap string (string * Z)
}.

(** [settings.OTP_EXPIRY_SECONDS] *)
Definition OTP_EXPIRY_SECONDS : Z := 120.

Definition otp_key (user_id : string) : string := "otp:" +:+ user_id.

(** Time passes on the server. *)
Definition elapse (ms : Z) (r : Redis) : Redis :=
  {| reachable := reachable r; clock := (clock r + ms)%Z;
     strings := strings r |}.

(** [client.setex(f"otp:{user_id}", settings.OTP_EXPIRY_SECONDS, otp)] *)
Definition store_otp (user_id otp : string) (r : Redis) : result bool * Redis :=
  if reachable r then
    (Ok true,
     {| reachable := reachable r; clock := clock r;
        strings := <[otp_key user_id :=
                      (otp, (clock r + OTP_EXPIRY_SECONDS * 1000)%Z)]>
                     (strings r) |})
  else (Raise RedisError, r).

(** [client.get(f"otp:{user_id}")]: a key is gone once the clock is past
    its deadline; at the deadline itself it is still there. *)
Definition get_otp (user_id : string) (r : Redis) : result (option string) * Redis :=
  if reachable r then
    (Ok (match strings r !! otp_key user_id with
         | Some (otp, deadline) =>
             if bool_decide (clock r ≤ deadline)%Z then Some otp else None
         | None => None
         end), r)
  else (Raise RedisError, r).

(** [client.delete(f"otp:{user_id}")] *)
Definition delete_otp (user_id : string) (r : Redis) : result bool * Redis :=
  if reachable r then
    (Ok true,
     {| reachable := reachable r; clock := clock r;
        strings := delete (otp_key user_id) (strings r) |})
  else (Raise RedisError, r).

(** *** app/redis_client.py: clean_expired_otps *)

Section clean_expired_otps.

(** Time stamps with the comparison [current_time > expiry]. *)
Context {Time : Type} (later : Time → Time → bool).

(** [[key for key, expiry in otp_expiry.items() if current_time > expiry]] *)
Definition expired_keys (current_time : Time) (otp_expiry : gmap string Time)
    : list string :=
  (filter (λ kv, later current_time kv.2 = true) (map_to_list otp_expiry)).*1.

(** The body of the loop, on the two dictionaries. *)
Definition drop_key (dicts : gmap string string * gmap string Time)
    (key : string) : gmap string string * gmap string Time :=
  let otp_store :=
    if decide (is_Some (dicts.1 !! key)) then delete key dicts.1 else dicts.1 in
  let otp_expiry :=
    if decide (is_Some (dicts.2 !! key)) then delete key dicts.2 else dicts.2 in
  (otp_store, otp_expiry).

Definition clean_expired_otps (current_time : Time)
    (dicts : gmap string string * gmap string Time)
    : gmap string string * gmap string Time :=
  foldl drop_key dicts (expired_keys current_time dicts.2).

(** [current_time > expiry] for the key's entry in [otp_expiry], if any. *)
Definition expired (current_time : Time) (otp_expiry : gmap string Time)
    (key : string) : bool :=
  match otp_expiry !! key with
  | Some expiry => later current_time expiry
  | None => false
  end.

End clean_expired_otps.

(** *** Vocabulary, continued *)

(** The user has no registry entry, or one that takes frames. *)
Definition reachable_or_absent (u : string) (s : State) : Prop :=
  ∀ ws, active_connections s !! u = Some ws → usable ws s.

(** Every row is still there, and as it was or with its status set to
    read: no other write to a stored row has happened. *)
Definition only_read_written (s s' : State) : Prop :=
  ∀ id m, messages s !! id = Some m →
    messages s' !! id = Some m ∨ messages s' !! id = Some (with_status READ m).

(** The table of messages is as it was. *)
Definition same_messages (s s' : State) : Prop := messages s' = messages s.

(** Every row of a list can be loaded. *)
Definition all_loadable (rows : list (string * Message)) : Prop :=
  Forall (λ row, loadable row.2) rows.

#[global] Instance all_loadable_dec rows : Decision (all_loadable rows).
Proof. unfold all_loadable. apply _. Defined.

(** Events during which Redis stays reachable and the process stays up. *)
Definition calm (e : event) : Prop :=
  match e with
  | RedisDown | Restart => False
  | _ => True
  end.

(** *** More scenarios *)

Module Demo2.

Definition typing (r : string) : json :=
  JObj [("type", JStr "typing");
        ("data", JObj [("receiver_id", JStr r); ("is_typing", JBool true)])].

Definition ping : json := JObj [("type", JStr "ping"); ("data", JObj [])].

Definition untargeted (c : string) : json :=
  JObj [("type", JStr "message"); ("data", JObj [("content", JStr c)])].

(** Redis is away when the process starts. *)
Definition cold : State :=
  {| active_connections := ∅; online_users := ∅; redis_up := false;
     users := Demo.people; messages := ∅; groups := ∅; group_members := ∅;
     sent := []; closed := []; lost := ∅; sessions := ∅ |}.

(** No tables but the users. *)
Definition empty : State := boot Demo.people ∅ ∅ ∅.

Definition group_msg (c : string) (t : Z) : Message :=
  mkMessage "bob" None (Some "g1") c "TEXT" None SENT false t.

(** Two messages in group g1. *)
Definition forum : State :=
  boot Demo.people
    (<[ "m1" := group_msg "one" 1 ]> (<[ "m2" := group_msg "two" 2 ]> ∅))
    Demo.club Demo.roster.

Definition idle : Redis := mkRedis true 0 ∅.

(** alice founds g7 and adds bob as a plain member. *)
Definition chess_club : State :=
  serve_all [CreateGroup "chess" "alice" "g7" "r7";
             AddGroupMember "g7" "bob" false "alice" "r8"] empty.

End Demo2.

(** * Properties *)

Arguments send_personal_message : simpl never.
Arguments is_user_online : simpl never.
Arguments db_add_message : simpl never.
Arguments db_set_status : simpl never.
Arguments for_each : simpl never.
Arguments on_message : simpl never.
Arguments on_read_receipt : simpl never.
Arguments disconnect : simpl never.

(** Unfold the monad. *)
Ltac mrun :=
  unfold mbind, mret, M_bind, M_ret, result_bind, result_ret,
         gets, modify, lift, raise in *; simpl in *.

(** ** Relations kept by computations *)

Section keeps.
Context (R : relation State) `{!PreOrder R}.

Lemma keeps_ret {A} (a : A) : keeps R (mret a).
Proof. intros s. simpl. reflexivity. Qed.

Lemma keeps_raise {A} e : keeps R (raise e : M A).
Proof. intros s. simpl. reflexivity. Qed.

Lemma keeps_gets {A} (f : State → A) : keeps R (gets f).
Proof. intros s. simpl. reflexivity. Qed.

Lemma keeps_lift {A} (r : result A) : keeps R (lift r).
Proof. intros s. simpl. reflexivity. Qed.

Lemma keeps_modify (f : State → State) :
  (∀ s, R s (f s)) → keeps R (modify f).
Proof. intros H s. apply H. Qed.

Lemma keeps_bind {A B} (m : M A) (f : A → M B) :
  keeps R m → (∀ a, keeps R (f a)) → keeps R (m ≫= f).
Proof.
  intros Hm Hf s. unfold mbind, M_bind. specialize (Hm s).
  destruct (m s) as [[a|e] s1]; simpl in *; [|done].
  etrans; [exact Hm|apply Hf].
Qed.

Lemma keeps_for_each {A} (l : list A) (body : A → M unit) :
  (∀ a, keeps R (body a)) → keeps R (for_each l body).
Proof.
  intros Hb. induction l as [|a l IH]; unfold for_each; fold @for_each.
  - apply keeps_ret.
  - apply keeps_bind; auto.
Qed.

End keeps.

Lemma keeps_weaken {A} (R1 R2 : relation State) (m : M A) :
  (∀ s s', R1 s s' → R2 s s') → keeps R1 m → keeps R2 m.
Proof. intros H Hm s. apply H, Hm. Qed.

#[global] Instance maintains_preorder I : PreOrder (maintains I).
Proof.
  split; [intros s H; exact H|].
  intros s1 s2 s3 H1 H2 H. by apply H2, H1.
Qed.

#[global] Instance same_presence_preorder : PreOrder same_presence.
Proof.
  split.
  - by intros s.
  - intros s1 s2 s3 (?&?&?) (?&?&?). unfold same_presence.
    split_and!; congruence.
Qed.

#[global] Instance same_members_preorder : PreOrder same_members.
Proof.
  split; [by intros s|].
  intros s1 s2 s3 H1 H2. unfold same_members in *. congruence.
Qed.

#[global] Instance admins_kept_preorder : PreOrder admins_kept.
Proof.
  split; [intros s g H; exact H|].
  intros s1 s2 s3 H1 H2 g H. by apply H2, H1.
Qed.

Lemma with_status_same m : with_status (status m) m = m.
Proof. by destruct m. Qed.

Lemma with_status_read m : status m = READ → with_status READ m = m.
Proof. intros <-. apply with_status_same. Qed.

#[global] Instance forward_preorder : PreOrder forward.
Proof.
  split.
  - intros s id m H. exists (status m). by rewrite with_status_same.
  - intros s1 s2 s3 H12 H23 id m H.
    destruct (H12 id m H) as (st1 & H1 & Hle1).
    destruct (H23 id _ H1) as (st2 & H2 & Hle2).
    exists st2. split; [done|]. simpl in Hle2. lia.
Qed.

Lemma forward_same s s' : messages s' = messages s → forward s s'.
Proof. intros Heq id m H. exists (status m). by rewrite Heq, with_status_same. Qed.

#[global] Instance only_read_written_preorder : PreOrder only_read_written.
Proof.
  split.
  - intros s id m H. by left.
  - intros s1 s2 s3 H12 H23 id m H.
    destruct (H12 id m H) as [H2|H2]; destruct (H23 id _ H2) as [H3|H3];
      rewrite H3; auto.
Qed.

Lemma only_read_written_same s s' :
  messages s' = messages s → only_read_written s s'.
Proof. intros Heq id m H. left. by rewrite Heq. Qed.


Create HintDb keeps.

(** One step of a frame argument: hints first, then the structure of the
    computation. *)
Ltac keeps_step :=
  first
    [ solve [auto with keeps]
    | apply keeps_ret; apply _
    | apply keeps_raise; apply _
    | apply keeps_gets; apply _
    | apply keeps_lift; apply _
    | apply keeps_bind; [apply _ | | intros ?]
    | apply keeps_for_each; [apply _ | intros ?]
    | apply keeps_modify; intros ?;
        first [ done | apply forward_same; done
              | apply only_read_written_same; done ]
    | case_match ].


(** ** Equations of the primitives *)

Lemma set_sent_nil s : set_sent (λ l, l ++ []) s = s.
Proof. destruct s; unfold set_sent; simpl. by rewrite app_nil_r. Qed.

Lemma send_json_eq ws message s :
  send_json ws message s
  = if decide (ws ∈ shut s) then (Raise RuntimeError, s)
    else if decide (ws ∈ lost s) then (Raise WebSocketDisconnect, s)
    else (Ok tt, set_sent (λ l, l ++ [(ws, message)]) s).
Proof.
  unfold send_json. mrun.
  destruct (decide (ws ∈ shut s)) as [H1|H1].
  - by rewrite bool_decide_eq_true_2.
  - rewrite bool_decide_eq_false_2 by done. simpl.
    destruct (decide (ws ∈ lost s)) as [H2|H2].
    + by rewrite bool_decide_eq_true_2.
    + by rewrite bool_decide_eq_false_2.
Qed.

Lemma send_json_usable ws message s :
  usable ws s →
  send_json ws message s = (Ok tt, set_sent (λ l, l ++ [(ws, message)]) s).
Proof.
  intros [H1 H2]. rewrite send_json_eq.
  by rewrite decide_False, decide_False.
Qed.

Lemma send_json_shut ws message s :
  ws ∈ shut s → send_json ws message s = (Raise RuntimeError, s).
Proof. intros H. rewrite send_json_eq. by rewrite decide_True. Qed.

Lemma send_personal_message_unfold message u s :
  send_personal_message message u s
  = match active_connections s !! u with
    | Some ws => send_json ws message s
    | None => (Ok tt, s)
    end.
Proof. unfold send_personal_message. mrun. by destruct (_ !! u). Qed.

Lemma send_personal_message_eq message u s :
  reachable_or_absent u s →
  send_personal_message message u s
  = (Ok tt, set_sent (λ l, l ++ pushed s u message) s).
Proof.
  intros H. rewrite send_personal_message_unfold. unfold pushed.
  destruct (active_connections s !! u) as [ws|] eqn:Hu.
  - by apply send_json_usable, H.
  - by rewrite set_sent_nil.
Qed.

Lemma connect_eq ws u s :
  redis_up s = true →
  connect ws u s
  = (Ok tt, set_online_users (λ o, {[u]} ∪ o)
              (set_active_connections (λ c, <[u := ws]> c) s)).
Proof.
  intros H. unfold connect, set_user_online, get_redis_client. mrun.
  by rewrite H.
Qed.

(** With Redis unreachable the registry is already written when
    [set_user_online] raises. *)
Lemma connect_redis_down ws u s :
  redis_up s = false →
  connect ws u s
  = (Raise RedisError, set_active_connections (λ c, <[u := ws]> c) s).
Proof.
  intros H. unfold connect, set_user_online, get_redis_client. mrun.
  by rewrite H.
Qed.

Lemma set_active_connections_delete_id u s :
  active_connections s !! u = None →
  set_active_connections (λ c, delete u c) s = s.
Proof.
  intros H. destruct s; unfold set_active_connections; simpl in *.
  f_equal. by apply delete_id.
Qed.

Lemma disconnect_eq u s :
  redis_up s = true →
  disconnect u s
  = (Ok tt, set_online_users (λ o, o ∖ {[u]})
              (set_active_connections (λ c, delete u c) s)).
Proof.
  intros H. unfold disconnect, set_user_offline, get_redis_client. mrun.
  destruct (decide (is_Some (active_connections s !! u))) as [Hs|Hn];
    simpl; rewrite H; [done|].
  rewrite set_active_connections_delete_id; [done|].
  by apply eq_None_not_Some.
Qed.

(** With Redis unreachable the entry is already deleted when
    [set_user_offline] raises. *)
Lemma disconnect_redis_down u s :
  redis_up s = false →
  disconnect u s
  = (Raise RedisError, set_active_connections (λ c, delete u c) s).
Proof.
  intros H. unfold disconnect, set_user_offline, get_redis_client. mrun.
  destruct (decide (is_Some (active_connections s !! u))) as [Hs|Hn];
    simpl; rewrite H; [done|].
  rewrite set_active_connections_delete_id; [done|].
  by apply eq_None_not_Some.
Qed.

(** *** The insert of a message row *)

Lemma MessageType_of_name_name t :
  MessageType_of_name (MessageType_name t) = Some t.
Proof. by destruct t. Qed.

Lemma MessageType_value_no_name t :
  MessageType_of_name (MessageType_value t) = None.
Proof. by destruct t. Qed.

Lemma load_eq row s :
  load row s = if decide (loadable row.2) then (Ok row, s)
               else (Raise LookupError, s).
Proof. unfold load. by case_decide. Qed.

Lemma db_add_message_fresh id m s :
  messages s !! id = None →
  db_add_message id m s
  = (if decide (loadable m) then Ok tt else Raise LookupError,
     set_messages (λ t, <[id := m]> t) s).
Proof.
  intros H. unfold db_add_message. mrun. rewrite H. simpl.
  unfold load. simpl. by case_decide.
Qed.


(** ** From handlers to the transition system *)

Section lifting.
Context (R : relation State) `{!PreOrder R}.
Hypothesis R_sessions : ∀ f s, R s (set_sessions f s).
Hypothesis R_closed : ∀ f s, R s (set_closed f s).
Hypothesis R_lost : ∀ f s, R s (set_lost f s).
Hypothesis R_connect : ∀ ws u, keeps R (connect ws u).
Hypothesis R_disconnect : ∀ u, keeps R (disconnect u).
Hypothesis R_loop : ∀ user inp env, keeps R (loop_body user inp env).
Hypothesis R_history : ∀ u skip limit cur order_by,
  keeps R (get_chat_history u skip limit cur order_by).
Hypothesis R_remove : ∀ g mid cur, keeps R (remove_group_member g mid cur).
Hypothesis R_redis_up : ∀ s, R s (set_redis_up (λ _, true) s).

Lemma enter_keeps ws payload s : R s (websocket_endpoint_enter ws payload s).2.
Proof.
  unfold websocket_endpoint_enter.
  assert (Hk : keeps R
    (user ← get_current_user payload; _ ← connect ws user;
     modify (set_sessions (λ t, <[ws := user]> t)))).
  { apply keeps_bind; [apply _ | | intros user].
    - unfold get_current_user. repeat keeps_step.
    - apply keeps_bind; [apply _ | apply R_connect | intros _].
      apply keeps_modify. intros s0. apply R_sessions. }
  specialize (Hk s).
  match goal with |- context [match ?c with _ => _ end] =>
    destruct c as [[?|?] s1] end; simpl in *; [done|].
  etrans; [exact Hk|]. apply R_closed.
Qed.

Lemma iter_keeps ws user inp env s :
  R s (websocket_endpoint_iter ws user inp env s).2.
Proof.
  unfold websocket_endpoint_iter.
  pose proof (R_loop user inp env s) as Hl.
  destruct (loop_body user inp env s) as [[[]|e] s1]; simpl in *; [done|].
  pose proof (R_disconnect user s1) as Hd.
  destruct e; simpl; try (etrans; [exact Hl|]; apply R_closed).
  destruct (disconnect user s1) as [[[]|e] s2]; simpl in *.
  - by etrans.
  - etrans; [exact Hl|]. etrans; [exact Hd|]. apply R_closed.
Qed.

Lemma step_keeps_calm e s : calm e → R s (step e s).
Proof.
  destruct e as [ws payload|ws inp env|u skip limit cur order_by|g mid cur
                 |ws| | |]; simpl; intros Hcalm; try contradiction.
  - case_decide; [apply enter_keeps | reflexivity].
  - destruct (sessions s !! ws) as [user|]; [|reflexivity].
    set (s0 := match inp with
               | Recv _ => s
               | ClientGone => set_lost (λ l, l ∪ {[ws]}) s
               end).
    assert (H0 : R s s0) by (subst s0; destruct inp; [reflexivity|apply R_lost]).
    pose proof (iter_keeps ws user inp env s0) as Hi.
    destruct (websocket_endpoint_iter ws user inp env s0) as [[] s1];
      simpl in *; [by etrans|].
    etrans; [exact H0|]. etrans; [exact Hi|]. apply R_sessions.
  - apply R_history.
  - apply R_remove.
  - apply R_lost.
  - apply R_redis_up.
Qed.

Hypothesis R_redis_down : ∀ s, R s (set_redis_up (λ _, false) s).
Hypothesis R_active : ∀ f s, R s (set_active_connections f s).

Lemma step_keeps e s : R s (step e s).
Proof.
  destruct e; try (by apply step_keeps_calm); simpl.
  - apply R_redis_down.
  - unfold restart. etrans; [apply R_lost|]. etrans; [apply R_active|].
    apply R_sessions.
Qed.

End lifting.

(** ** Presence and the registry *)

Lemma is_user_online_presence u : keeps same_presence (is_user_online u).
Proof. unfold is_user_online, get_redis_client. repeat keeps_step. Qed.

Lemma send_personal_message_presence message u :
  keeps same_presence (send_personal_message message u).
Proof. unfold send_personal_message, send_json. repeat keeps_step. Qed.

Lemma db_add_message_presence id m : keeps same_presence (db_add_message id m).
Proof. unfold db_add_message, load. repeat keeps_step. Qed.

Lemma db_set_status_presence id st : keeps same_presence (db_set_status id st).
Proof. unfold db_set_status. repeat keeps_step. Qed.

Lemma load_all_keeps (R : relation State) `{!PreOrder R} rows :
  keeps R (load_all rows).
Proof.
  induction rows as [|row rows IH]; simpl.
  - by apply keeps_ret.
  - unfold load. repeat keeps_step.
Qed.

#[global] Hint Resolve is_user_online_presence send_personal_message_presence
  db_add_message_presence db_set_status_presence : keeps.

Lemma loop_body_presence user inp env :
  keeps same_presence (loop_body user inp env).
Proof.
  unfold loop_body, receive_text, on_message, on_typing, on_read_receipt,
    send_personal_message_dyn, query_message, load.
  repeat keeps_step.
Qed.

Lemma get_chat_history_presence u skip limit cur order_by :
  keeps same_presence (get_chat_history u skip limit cur order_by).
Proof.
  unfold get_chat_history, bind_int.
  repeat first [ apply load_all_keeps; apply _ | keeps_step ].
Qed.

Lemma remove_group_member_presence g mid cur :
  keeps same_presence (remove_group_member g mid cur).
Proof. unfold remove_group_member. repeat keeps_step. Qed.

Lemma same_presence_inv s s' :
  same_presence s s' → maintains presence_inv s s'.
Proof.
  intros (Hc & Ho & Hr) [Hup Hcons]. split; [congruence|].
  intros u. rewrite Hc, Ho. apply Hcons.
Qed.

Lemma connect_inv ws u : keeps (maintains presence_inv) (connect ws u).
Proof.
  intros s [Hup Hcons]. rewrite connect_eq by done.
  split; [done|]. intros v. simpl.
  destruct (decide (u = v)) as [->|Hne].
  - rewrite lookup_insert_eq. split; [eauto|]. intros _.
    apply elem_of_union_l. by apply elem_of_singleton.
  - rewrite lookup_insert_ne by done. rewrite <- (Hcons v).
    rewrite elem_of_union, elem_of_singleton. intuition congruence.
Qed.

Lemma disconnect_inv u : keeps (maintains presence_inv) (disconnect u).
Proof.
  intros s [Hup Hcons]. rewrite disconnect_eq by done.
  split; [done|]. intros v. simpl.
  rewrite elem_of_difference, elem_of_singleton.
  destruct (decide (u = v)) as [->|Hne].
  - rewrite lookup_delete_eq. split; [intuition congruence|]. by intros [? ?].
  - rewrite lookup_delete_ne by done. rewrite <- (Hcons v).
    intuition congruence.
Qed.

Lemma step_presence_inv e s : calm e → presence_inv s → presence_inv (step e s).
Proof.
  intros Hcalm. revert Hcalm.
  apply (step_keeps_calm (maintains presence_inv)).
  - intros f s0. by apply same_presence_inv.
  - intros f s0. by apply same_presence_inv.
  - intros f s0. by apply same_presence_inv.
  - apply connect_inv.
  - apply disconnect_inv.
  - intros. eapply keeps_weaken; [apply same_presence_inv|].
    apply loop_body_presence.
  - intros. eapply keeps_weaken; [apply same_presence_inv|].
    apply get_chat_history_presence.
  - intros. eapply keeps_weaken; [apply same_presence_inv|].
    apply remove_group_member_presence.
  - intros s0 [_ Hcons]. by split.
Qed.

Lemma run_presence_inv evs :
  ∀ s, Forall calm evs → presence_inv s → presence_inv (run evs s).
Proof.
  induction evs as [|e evs IH]; intros s Hcalm Hinv; simpl; [done|].
  apply Forall_cons in Hcalm as [He Hevs].
  apply IH; [done|]. by apply step_presence_inv.
Qed.

Lemma boot_presence_inv us ms gs gms : presence_inv (boot us ms gs gms).
Proof.
  split; [done|]. intros u. simpl. rewrite lookup_empty.
  split; [by intros ?%not_elem_of_empty | by intros [? ?]].
Qed.

(** C2, as the code has it. From a fresh process with an empty presence
    set, through any sequence of events during which Redis stays
    reachable and the process is not restarted (connections entering,
    frames, disconnects, a stale connection's disconnect included, clients
    going away, history fetches, member removals), a user is in the
    presence set exactly when the registry has an entry for the user. The
    two are written one after the other and nothing undoes the first
    write when the second fails: with Redis unreachable [connect] leaves
    the entry written and the presence set as it was, [disconnect] leaves
    the entry deleted and the presence set as it was; a restart empties
    the registry and leaves the presence set as it was. *)
Theorem online_iff_registered us ms gs gms evs (U : string) :
  Forall calm evs →
  (let s := run evs (boot us ms gs gms) in
   U ∈ online_users s ↔ is_Some (active_connections s !! U))
  ∧ (∀ ws s, redis_up s = false →
       ∃ e s', connect ws U s = (Raise e, s')
               ∧ active_connections s' !! U = Some ws
               ∧ online_users s' = online_users s)
  ∧ (∀ s, redis_up s = false →
       ∃ e s', disconnect U s = (Raise e, s')
               ∧ active_connections s' !! U = None
               ∧ online_users s' = online_users s)
  ∧ (∀ s, active_connections (step Restart s) = ∅
          ∧ online_users (step Restart s) = online_users s).
Proof.
  intros Hcalm. split_and!.
  - intros s.
    by apply (run_presence_inv evs _ Hcalm (boot_presence_inv us ms gs gms)).
  - intros ws s Hdown. rewrite connect_redis_down by done.
    eexists _, _. split; [done|]. simpl. by rewrite lookup_insert_eq.
  - intros s Hdown. rewrite disconnect_redis_down by done.
    eexists _, _. split; [done|]. simpl. by rewrite lookup_delete_eq.
  - done.
Qed.

Lemma online_iff_registered_witness :
  let s := run [Enter 1 (Demo.token "alice"); Enter 2 (Demo.token "alice");
                Iterate 1 ClientGone (mkEnv "" 0)] Demo.fresh in
  "alice" ∈ online_users s ↔ is_Some (active_connections s !! "alice").
Proof.
  apply (online_iff_registered Demo.people ∅ Demo.club Demo.roster
           [Enter 1 (Demo.token "alice"); Enter 2 (Demo.token "alice");
            Iterate 1 ClientGone (mkEnv "" 0)] "alice").
  repeat constructor.
Defined.

(** C2 as stated fails: Redis goes away, then alice connects. The registry
    entry is written before [set_user_online] raises, so the registry
    holds alice's websocket while the presence set does not hold alice. *)
Lemma connect_in_outage_registers_offline_user :
  let s := run [RedisDown; Enter 1 (Demo.token "alice")] Demo.fresh in
  active_connections s !! "alice" = Some 1
  ∧ elements (online_users s) = []
  ∧ ¬ ("alice" ∈ online_users s ↔ is_Some (active_connections s !! "alice")).
Proof.
  intros s.
  assert (H1 : active_connections s !! "alice" = Some 1) by (by vm_compute).
  assert (H2 : elements (online_users s) = []) by (by vm_compute).
  split_and!; [done..|]. intros [_ H].
  assert (Hin : "alice" ∈ online_users s) by (apply H; exists 1; exact H1).
  apply elem_of_elements in Hin. rewrite H2 in Hin.
  by apply not_elem_of_nil in Hin.
Qed.

(** C7, as the code has it. [disconnect] is given the user only: when a
    session ends on [WebSocketDisconnect], whatever websocket it held and
    whatever websocket is registered, the user's entry is deleted; then
    [set_user_offline] is called: with Redis reachable the user is taken
    out of the presence set, with Redis unreachable it raises, the user
    stays in the presence set and the session's websocket is closed with
    code 1008. *)
Theorem disconnect_ignores_connection ws user env s :
  ∃ s', websocket_endpoint_iter ws user ClientGone env s = (Closed, s')
        ∧ active_connections s' = delete user (active_connections s)
        ∧ sent s' = sent s
        ∧ if redis_up s
          then online_users s' = online_users s ∖ {[user]}
               ∧ closed s' = closed s
          else online_users s' = online_users s
               ∧ closed s' = closed s ++ [(ws, 1008%Z)].
Proof.
  unfold websocket_endpoint_iter.
  replace (loop_body user ClientGone env s)
    with (@Raise unit WebSocketDisconnect, s) by done.
  cbv iota beta. destruct (redis_up s) eqn:Hup.
  - rewrite disconnect_eq by done. eauto 10.
  - rewrite disconnect_redis_down by done. eauto 10.
Qed.

(** C7 as stated fails: alice connects on websocket 1, then on websocket
    2, which becomes the registered one; when the older connection goes
    away, its session unregisters alice and marks her offline although
    the newer session is still in its loop. *)
Lemma stale_disconnect_unregisters_newer :
  active_connections Demo.two_tabs !! "alice" = Some 2
  ∧ sessions Demo.two_tabs !! 1 = Some "alice"
  ∧ let s := step (Iterate 1 ClientGone (mkEnv "" 0)) Demo.two_tabs in
    active_connections s !! "alice" = None
    ∧ elements (online_users s) = []
    ∧ sessions s !! 2 = Some "alice".
Proof. vm_compute. repeat split; reflexivity. Qed.

(** ** Message frames *)

Lemma result_bind_ok {A B} (r : result A) (f : A → result B) b :
  r ≫= f = Ok b → ∃ a, r = Ok a ∧ f a = Ok b.
Proof. destruct r as [a|e]; [eauto | done]. Qed.

(** [use_enum_values]: the validated [message_type] is a member's value. *)
Lemma make_MessageCreate_type md mc :
  make_MessageCreate md = Ok mc →
  ∃ t, mc_message_type mc = MessageType_value t.
Proof.
  unfold make_MessageCreate. intros H.
  repeat (apply result_bind_ok in H as (? & _ & H)).
  injection H as <-. eauto.
Qed.

(** The validated fields are the frame's own: the content is the string
    under ["data"]["content"], receiver and group are what
    [.get("receiver_id")] and [.get("group_id")] give. *)
Lemma make_MessageCreate_fields md mc :
  make_MessageCreate md = Ok mc →
  (d ← subscript md "data"; subscript d "content") = Ok (JStr (mc_content mc))
  ∧ ((d ← subscript md "data"; get d "receiver_id") ≫= validate_optional_str)
    = Ok (mc_receiver_id mc)
  ∧ ((d ← subscript md "data"; get d "group_id") ≫= validate_optional_str)
    = Ok (mc_group_id mc).
Proof.
  unfold make_MessageCreate. intros H.
  repeat match type of H with
         | (?r ≫= _) = Ok _ =>
             let E := fresh "E" in
             destruct r eqn:E; simpl in H; [|discriminate]
         end.
  injection H as <-. simpl. split_and!; [|done|done].
  match goal with
  | Hv : validate_str ?a = Ok _ |- _ => destruct a; simpl in Hv; by simplify_eq
  end.
Qed.

(** No value is a name: the row the endpoint stores cannot be read back. *)
Lemma new_row_not_loadable user md mc env :
  make_MessageCreate md = Ok mc → ¬ loadable (new_row user mc env).
Proof.
  intros [t Ht]%make_MessageCreate_type. unfold loadable. simpl.
  rewrite Ht, MessageType_value_no_name. by intros [? ?].
Qed.

(** The message branch on a valid frame: the row is committed, then
    [db.refresh] raises; nothing below it runs. *)
Lemma on_message_eq user md env mc s :
  make_MessageCreate md = Ok mc →
  messages s !! uuid4 env = None →
  on_message user md env s
  = (Raise LookupError,
     set_messages (λ t, <[uuid4 env := new_row user mc env]> t) s).
Proof.
  intros Hmc Hfresh. unfold on_message.
  unfold mbind at 1, M_bind at 1, lift. rewrite Hmc.
  unfold mbind at 1, M_bind at 1. rewrite db_add_message_fresh by done.
  fold (new_row user mc env).
  by rewrite decide_False by (by eapply new_row_not_loadable).
Qed.


Lemma on_message_invalid user md env e s :
  make_MessageCreate md = Raise e →
  on_message user md env s = (Raise e, s).
Proof.
  intros Hmc. unfold on_message.
  unfold mbind at 1, M_bind at 1, lift. by rewrite Hmc.
Qed.

Lemma eq_str_true ty k : eq_str ty k = true → ty = JStr k.
Proof.
  destruct ty; simpl; try done. intros H.
  by apply bool_decide_eq_true in H as ->.
Qed.

Lemma loop_body_message user md env s ty :
  subscript md "type" = Ok ty → eq_str ty "message" = true →
  loop_body user (Recv (Encodes md)) env s = on_message user md env s.
Proof.
  intros Hty He. unfold loop_body, receive_text. mrun.
  by rewrite Hty; simpl; rewrite He.
Qed.

Lemma loop_body_read_receipt user md env s ty :
  subscript md "type" = Ok ty → eq_str ty "read_receipt" = true →
  loop_body user (Recv (Encodes md)) env s = on_read_receipt user md s.
Proof.
  intros Hty He. apply eq_str_true in He as ->.
  unfold loop_body, receive_text. mrun. by rewrite Hty.
Qed.

Lemma loop_body_typing user md env s ty :
  subscript md "type" = Ok ty → eq_str ty "typing" = true →
  loop_body user (Recv (Encodes md)) env s = on_typing user md s.
Proof.
  intros Hty He. apply eq_str_true in He as ->.
  unfold loop_body, receive_text. mrun. by rewrite Hty.
Qed.

Lemma loop_body_untyped user md env s e :
  subscript md "type" = Raise e →
  loop_body user (Recv (Encodes md)) env s = (Raise e, s).
Proof. intros Hty. unfold loop_body, receive_text. mrun. by rewrite Hty. Qed.

Lemma iter_ok ws user inp env s s1 :
  loop_body user inp env s = (Ok tt, s1) →
  websocket_endpoint_iter ws user inp env s = (Open, s1).
Proof. intros H. unfold websocket_endpoint_iter. by rewrite H. Qed.

Lemma iter_raise ws user inp env s e s1 :
  loop_body user inp env s = (Raise e, s1) → e ≠ WebSocketDisconnect →
  websocket_endpoint_iter ws user inp env s
  = (Closed, set_closed (λ l, l ++ [(ws, 1008%Z)]) s1).
Proof.
  intros H Hne. unfold websocket_endpoint_iter. rewrite H. by destruct e.
Qed.

(** A send that finds the receiver's client gone takes the sender's loop
    to [except WebSocketDisconnect]. *)
Lemma iter_disconnect ws user inp env s s1 :
  loop_body user inp env s = (Raise WebSocketDisconnect, s1) →
  websocket_endpoint_iter ws user inp env s
  = match disconnect user s1 with
    | (Ok _, s2) => (Closed, s2)
    | (Raise _, s2) => (Closed, set_closed (λ l, l ++ [(ws, 1008%Z)]) s2)
    end.
Proof. intros H. unfold websocket_endpoint_iter. by rewrite H. Qed.

Lemma iter_message ws user md mc env s :
  messages s !! uuid4 env = None →
  message_frame md mc →
  websocket_endpoint_iter ws user (Recv (Encodes md)) env s
  = (Closed,
     set_closed (λ l, l ++ [(ws, 1008%Z)])
       (set_messages (λ t, <[uuid4 env := new_row user mc env]> t) s)).
Proof.
  intros Hfresh [(ty & Hty & He) Hmc].
  apply (iter_raise _ _ _ _ _ LookupError); [|done].
  rewrite (loop_body_message _ _ _ _ ty) by done. by apply on_message_eq.
Qed.

(** C3. alice and bob are connected, and alice sends bob the direct
    message ["hi"]: the row is stored with status sent and with the
    value text of its type, which cannot be read back; [db.refresh]
    raises, so nothing is pushed to bob, the status does not become
    delivered, alice gets no echo, and her connection is closed with
    code 1008. *)
Theorem direct_message_stops_at_refresh :
  let s := Demo.lobby in
  let env := mkEnv "m1" 10 in
  active_connections s !! "alice" = Some 1
  ∧ active_connections s !! "bob" = Some 2
  ∧ closed s = [] ∧ elements (lost s) = []
  ∧ ∃ s',
      websocket_endpoint_iter 1 "alice"
        (Recv (Encodes (Demo.direct "hi" "bob"))) env s = (Closed, s')
      ∧ messages s' !! "m1"
        = Some (mkMessage "alice" (Some "bob") None "hi" "text" None SENT
                  false 10)
      ∧ MessageType_of_name "text" = None
      ∧ sent s' = []
      ∧ closed s' = [(1, 1008%Z)].
Proof.
  intros s env. split_and!; [by vm_compute..|].
  eexists. split.
  - apply (iter_message 1 "alice" (Demo.direct "hi" "bob")
             (mkMessageCreate "hi" "text" None (Some "bob") None)).
    + by vm_compute.
    + split; [exists (JStr "message"); split; by vm_compute | by vm_compute].
  - by vm_compute.
Qed.

(** C6, as the code has it. A valid direct-message frame with an unused
    id, from S to a receiver R without a registry entry: the row is
    stored with sender S, receiver R, the frame's content and status
    sent, and every row stored before is as it was; no frame is written
    for R. The registry's send has no result to tell delivery by: for a
    user without an entry [send_personal_message] returns normally,
    without a value, without raising and without writing a frame, before
    the message as after it. *)
Theorem offline_receiver_message_stays_sent ws S R md mc env s :
  messages s !! uuid4 env = None →
  message_frame md mc →
  mc_receiver_id mc = Some R →
  active_connections s !! R = None →
  let m := new_row S mc env in
  let s' := (websocket_endpoint_iter ws S (Recv (Encodes md)) env s).2 in
  messages s' = <[uuid4 env := m]> (messages s)
  ∧ sender_id m = S ∧ receiver_id m = Some R ∧ status m = SENT
  ∧ (d ← subscript md "data"; subscript d "content") = Ok (JStr (content m))
  ∧ (∀ ws' f, (ws', f) ∈ sent s' → (ws', f) ∈ sent s)
  ∧ active_connections s' !! R = None
  ∧ (∀ message, send_personal_message message R s = (Ok tt, s))
  ∧ (∀ message, send_personal_message message R s' = (Ok tt, s')).
Proof.
  intros Hfresh Hf HR Hno m s'.
  assert (Hs' : s' = set_closed (λ l, l ++ [(ws, 1008%Z)])
                       (set_messages (λ t, <[uuid4 env := m]> t) s)).
  { unfold s'. by rewrite (iter_message ws S md mc env s). }
  destruct Hf as [_ Hmc].
  destruct (make_MessageCreate_fields md mc Hmc) as (Hc & _ & _).
  rewrite Hs'. split_and!; try done.
  - intros message. rewrite send_personal_message_unfold. by rewrite Hno.
  - intros message. rewrite send_personal_message_unfold. simpl.
    by rewrite Hno.
Qed.

Lemma offline_receiver_message_stays_sent_witness :
  let s' := (websocket_endpoint_iter 1 "alice"
               (Recv (Encodes (Demo.direct "hi" "bob"))) (mkEnv "m1" 10)
               Demo.alone).2 in
  messages s' !! "m1"
  = Some (mkMessage "alice" (Some "bob") None "hi" "text" None SENT false 10)
  ∧ send_personal_message (OutReadReceipt JNull "") "bob" s' = (Ok tt, s').
Proof.
  destruct (offline_receiver_message_stays_sent 1 "alice" "bob"
              (Demo.direct "hi" "bob")
              (mkMessageCreate "hi" "text" None (Some "bob") None)
              (mkEnv "m1" 10) Demo.alone)
    as (Hm & _ & _ & _ & _ & _ & _ & _ & Hsend).
  - reflexivity.
  - split; [exists (JStr "message"); split; reflexivity | reflexivity].
  - reflexivity.
  - reflexivity.
  - split; [|apply Hsend]. rewrite Hm. apply lookup_insert_eq.
Defined.

(** C6 as stated fails: only alice is connected, and she sends bob the
    direct message ["hi"]. The row is stored with status sent and
    nothing is written for bob, but the send to bob, which returns
    nothing, is not even reached: [db.refresh] raises before it, alice
    gets no echo, and her connection is closed with code 1008. *)
Lemma offline_receiver_gets_no_echo :
  let s := Demo.alone in
  let env := mkEnv "m1" 10 in
  active_connections s !! "alice" = Some 1
  ∧ active_connections s !! "bob" = None
  ∧ (∀ message, send_personal_message message "bob" s = (Ok tt, s))
  ∧ ∃ s',
      websocket_endpoint_iter 1 "alice"
        (Recv (Encodes (Demo.direct "hi" "bob"))) env s = (Closed, s')
      ∧ status <$> messages s' !! "m1" = Some SENT
      ∧ sent s' = []
      ∧ closed s' = [(1, 1008%Z)].
Proof.
  intros s env. split_and!; [by vm_compute..| |].
  - intros message. by rewrite send_personal_message_unfold.
  - eexists. split.
    + apply (iter_message 1 "alice" (Demo.direct "hi" "bob")
               (mkMessageCreate "hi" "text" None (Some "bob") None)).
      * by vm_compute.
      * split; [exists (JStr "message"); split; by vm_compute | by vm_compute].
    + by vm_compute.
Qed.

(** C10. alice, bob and carol are connected; carol, who has no row in the
    roster of group g1, sends g1 a message: the row is stored for g1
    without any membership check, but [db.refresh] raises before the
    loop over the members: neither alice nor bob is pushed anything,
    carol gets no echo, and her connection is closed with code 1008. *)
Theorem group_message_is_stored_not_fanned_out :
  let s := Demo.hall in
  let env := mkEnv "m1" 10 in
  (∀ mid member, group_members s !! mid = Some member →
     gm_user_id member ≠ "carol")
  ∧ is_Some (groups s !! "g1")
  ∧ active_connections s !! "alice" = Some 1
  ∧ active_connections s !! "bob" = Some 2
  ∧ ∃ s',
      websocket_endpoint_iter 3 "carol"
        (Recv (Encodes (Demo.to_group "hello" "g1"))) env s = (Closed, s')
      ∧ messages s' !! "m1"
        = Some (mkMessage "carol" None (Some "g1") "hello" "text" None SENT
                  false 10)
      ∧ sent s' = []
      ∧ closed s' = [(3, 1008%Z)].
Proof.
  intros s env. split_and!.
  - intros mid member H. change (group_members s) with Demo.roster in H.
    unfold Demo.roster in H.
    apply lookup_insert_Some in H as [[_ <-]|[_ H]]; [discriminate|].
    apply lookup_insert_Some in H as [[_ <-]|[_ H]]; [discriminate|].
    by rewrite lookup_empty in H.
  - exists (mkGroup "club" "alice"). by vm_compute.
  - by vm_compute.
  - by vm_compute.
  - eexists. split.
    + apply (iter_message 3 "carol" (Demo.to_group "hello" "g1")
               (mkMessageCreate "hello" "text" None None (Some "g1"))).
      * by vm_compute.
      * split; [exists (JStr "message"); split; by vm_compute | by vm_compute].
    + by vm_compute.
Qed.

(** ** Malformed frames *)

Lemma subscript_exn j k e : subscript j k = Raise e → e ≠ WebSocketDisconnect.
Proof. unfold subscript. repeat case_match; congruence. Qed.

Lemma get_exn j k e : get j k = Raise e → e ≠ WebSocketDisconnect.
Proof. unfold get. repeat case_match; congruence. Qed.

Lemma validate_str_exn j e :
  validate_str j = Raise e → e ≠ WebSocketDisconnect.
Proof. destruct j; simpl; congruence. Qed.

Lemma validate_optional_str_exn j e :
  validate_optional_str j = Raise e → e ≠ WebSocketDisconnect.
Proof. destruct j as [[]|]; simpl; congruence. Qed.

Lemma validate_message_type_exn j e :
  validate_message_type j = Raise e → e ≠ WebSocketDisconnect.
Proof.
  destruct j as [[]|]; simpl; try congruence.
  repeat (destruct (decide _); [congruence|]). congruence.
Qed.

Lemma result_bind_exn {A B} (r : result A) (f : A → result B) e :
  r ≫= f = Raise e → r = Raise e ∨ ∃ a, r = Ok a ∧ f a = Raise e.
Proof.
  intros H. destruct r as [a|e']; [right; eauto | left].
  unfold mbind, result_bind in H. by injection H as ->.
Qed.

Lemma make_MessageCreate_exn md e :
  make_MessageCreate md = Raise e → e ≠ WebSocketDisconnect.
Proof.
  unfold make_MessageCreate. intros H.
  repeat match goal with
  | H : _ ≫= _ = Raise _ |- _ =>
      apply result_bind_exn in H as [H | (? & _ & H)]
  | H : subscript _ _ = Raise _ |- _ => by apply subscript_exn in H
  | H : get _ _ = Raise _ |- _ => by apply get_exn in H
  | H : validate_str _ = Raise _ |- _ => by apply validate_str_exn in H
  | H : validate_optional_str _ = Raise _ |- _ =>
      by apply validate_optional_str_exn in H
  | H : validate_message_type _ = Raise _ |- _ =>
      by apply validate_message_type_exn in H
  end.
  done.
Qed.

Lemma loop_body_malformed user data env s :
  malformed data →
  ∃ e, loop_body user (Recv data) env s = (Raise e, s)
       ∧ e ≠ WebSocketDisconnect.
Proof.
  destruct data as [|md]; simpl.
  - intros _. exists JSONDecodeError. done.
  - intros [[e He] | (ty & e & Hty & Heq & He)].
    + exists e. split; [by apply loop_body_untyped|].
      by apply subscript_exn in He.
    + exists e. rewrite (loop_body_message _ _ _ _ ty) by done.
      split; [by apply on_message_invalid|].
      by apply make_MessageCreate_exn in He.
Qed.

(** C4, as the code has it. A malformed frame stores nothing and changes
    nothing but this: the exception reaches the endpoint's outer handler,
    which closes the connection with code 1008; the loop has ended, and
    later frames on that websocket are not processed. *)
Theorem malformed_frame_ends_session ws user data env s :
  malformed data →
  websocket_endpoint_iter ws user (Recv data) env s
  = (Closed, set_closed (λ l, l ++ [(ws, 1008%Z)]) s)
  ∧ (sessions s !! ws = Some user →
     let s1 := step (Iterate ws (Recv data) env) s in
     messages s1 = messages s
     ∧ closed s1 = closed s ++ [(ws, 1008%Z)]
     ∧ ∀ inp env', step (Iterate ws inp env') s1 = s1).
Proof.
  intros Hbad.
  destruct (loop_body_malformed user data env s Hbad) as (e & Hl & Hne).
  pose proof (iter_raise ws user _ env s e s Hl Hne) as Hi.
  split; [exact Hi|]. intros Hs s1.
  assert (Hstep : s1 = set_sessions (λ t, delete ws t)
                         (set_closed (λ l, l ++ [(ws, 1008%Z)]) s)).
  { subst s1. unfold step. by rewrite Hs, Hi. }
  rewrite Hstep. split_and!; [done..|].
  intros inp env'. unfold step. simpl. by rewrite lookup_delete_eq.
Qed.

Lemma malformed_frame_ends_session_witness :
  let bad := Recv (Encodes (Demo.no_content "bob")) in
  websocket_endpoint_iter 1 "alice" bad (mkEnv "m1" 10) Demo.lobby
  = (Closed, set_closed (λ l, l ++ [(1, 1008%Z)]) Demo.lobby).
Proof.
  intros bad.
  apply (malformed_frame_ends_session 1 "alice"
           (Encodes (Demo.no_content "bob")) (mkEnv "m1" 10) Demo.lobby).
  right. exists (JStr "message"), (KeyError "content").
  split_and!; reflexivity.
Defined.

(** C4 as stated fails: a message frame without ["content"] on alice's
    open connection gets the connection closed with code 1008 and ends
    her session; the well-formed frame she sends next is not processed
    (no row, nothing pushed to bob). *)
Lemma malformed_frame_closes_connection :
  sessions Demo.lobby !! 1 = Some "alice"
  ∧ let s1 := step (Iterate 1 (Recv (Encodes (Demo.no_content "bob")))
                      (mkEnv "m1" 10)) Demo.lobby in
    closed s1 = [(1, 1008%Z)]
    ∧ sessions s1 !! 1 = None
    ∧ let s2 := step (Iterate 1 (Recv (Encodes (Demo.direct "hi" "bob")))
                        (mkEnv "m2" 11)) s1 in
      messages s2 !! "m2" = None ∧ sent s2 = [].
Proof. vm_compute. repeat split; reflexivity. Qed.

(** ** Read receipts *)

Lemma query_message_str id s :
  query_message (JStr id) s
  = match messages s !! id with
    | None => (Ok None, s)
    | Some m => if decide (loadable m) then (Ok (Some (id, m)), s)
                else (Raise LookupError, s)
    end.
Proof.
  unfold query_message. mrun. destruct (messages s !! id) as [m|]; [|done].
  simpl. unfold load. simpl. by case_decide.
Qed.

Lemma alter_with_status id st m (t : gmap string Message) :
  t !! id = Some m → alter (with_status st) id t = <[id := with_status st m]> t.
Proof.
  intros Hm. apply map_eq. intros i. rewrite lookup_alter. case_decide as Hi.
  - subst. by rewrite Hm, lookup_insert_eq.
  - by rewrite lookup_insert_ne.
Qed.

Lemma set_messages_alter id st m s :
  messages s !! id = Some m →
  set_messages (λ t, alter (with_status st) id t) s
  = set_messages (λ t, <[id := with_status st m]> t) s.
Proof. intros H. unfold set_messages. f_equal. by apply alter_with_status. Qed.

(** The receipt of the receiver for a row that can be loaded: the status
    is written, then the notification is sent. *)
Lemma on_read_receipt_hit user md id m s :
  (d ← subscript md "data"; subscript d "message_id") = Ok (JStr id) →
  messages s !! id = Some m → loadable m →
  receiver_id m = Some user →
  on_read_receipt user md s
  = send_personal_message (OutReadReceipt (JStr id) user) (sender_id m)
      (set_messages (λ t, <[id := with_status READ m]> t) s).
Proof.
  intros Hid Hm Hl Hr. unfold on_read_receipt.
  unfold mbind at 1, M_bind at 1, lift. rewrite Hid.
  unfold mbind at 1, M_bind at 1. rewrite query_message_str, Hm.
  rewrite decide_True by done. simpl.
  rewrite decide_True by done.
  unfold mbind at 1, M_bind at 1, db_set_status, modify.
  by rewrite (set_messages_alter id READ m).
Qed.

Lemma on_read_receipt_unloadable user md id m s :
  (d ← subscript md "data"; subscript d "message_id") = Ok (JStr id) →
  messages s !! id = Some m → ¬ loadable m →
  on_read_receipt user md s = (Raise LookupError, s).
Proof.
  intros Hid Hm Hl. unfold on_read_receipt.
  unfold mbind at 1, M_bind at 1, lift. rewrite Hid.
  unfold mbind at 1, M_bind at 1. rewrite query_message_str, Hm.
  by rewrite decide_False.
Qed.

Lemma on_read_receipt_skip user md id s :
  (d ← subscript md "data"; subscript d "message_id") = Ok (JStr id) →
  (∀ m, messages s !! id = Some m → loadable m ∧ receiver_id m ≠ Some user) →
  on_read_receipt user md s = (Ok tt, s).
Proof.
  intros Hid Hno. unfold on_read_receipt.
  unfold mbind at 1, M_bind at 1, lift. rewrite Hid.
  unfold mbind at 1, M_bind at 1. rewrite query_message_str.
  destruct (messages s !! id) as [m|] eqn:Hm; simpl; [|done].
  destruct (Hno m eq_refl) as [Hl Hne].
  rewrite decide_True by done. simpl. by rewrite decide_False.
Qed.

Lemma iter_read_receipt ws user md id m env s :
  read_receipt_frame md id →
  messages s !! id = Some m → loadable m →
  receiver_id m = Some user →
  reachable_or_absent (sender_id m) s →
  websocket_endpoint_iter ws user (Recv (Encodes md)) env s
  = (Open,
     set_sent (λ l, l ++ pushed s (sender_id m) (OutReadReceipt (JStr id) user))
       (set_messages (λ t, <[id := with_status READ m]> t) s)).
Proof.
  intros [(ty & Hty & He) Hid] Hm Hl Hr Hs. apply iter_ok.
  rewrite (loop_body_read_receipt _ _ _ _ ty) by done.
  rewrite (on_read_receipt_hit user md id m) by done.
  by rewrite send_personal_message_eq.
Qed.

(** C5, as the code has it. Two read-receipt frames from the receiver R
    for a message that can be loaded, while the sender has no registry
    entry or one that takes frames: the stored status is read after the
    first and after the second, and each of the two calls sends one
    read-receipt frame to the connection registered for the message's
    sender (none without entry): with the sender connected, two frames
    in all. *)
Theorem read_receipt_twice ws R md id m env1 env2 s :
  read_receipt_frame md id →
  messages s !! id = Some m →
  loadable m →
  receiver_id m = Some R →
  reachable_or_absent (sender_id m) s →
  let rr := OutReadReceipt (JStr id) R in
  ∃ s1 s2,
    websocket_endpoint_iter ws R (Recv (Encodes md)) env1 s = (Open, s1)
    ∧ websocket_endpoint_iter ws R (Recv (Encodes md)) env2 s1 = (Open, s2)
    ∧ messages s1 !! id = Some (with_status READ m)
    ∧ messages s2 !! id = Some (with_status READ m)
    ∧ sent s1 = sent s ++ pushed s (sender_id m) rr
    ∧ sent s2 = sent s ++ pushed s (sender_id m) rr ++ pushed s (sender_id m) rr.
Proof.
  intros Hf Hm Hl Hr Hs rr.
  pose proof (iter_read_receipt ws R md id m env1 s Hf Hm Hl Hr Hs) as H1.
  eexists. eexists. split; [exact H1|].
  split.
  - apply (iter_read_receipt ws R md id (with_status READ m));
      [done| |done|done|done].
    simpl. apply lookup_insert_eq.
  - simpl. rewrite !lookup_insert_eq. split_and!; try done.
    unfold pushed; simpl. by rewrite <- app_assoc.
Qed.

Lemma read_receipt_twice_witness :
  ∃ s1 s2,
    websocket_endpoint_iter 1 "alice" (Recv (Encodes (Demo.receipt "m1")))
      (mkEnv "" 6) Demo.chatting = (Open, s1)
    ∧ websocket_endpoint_iter 1 "alice" (Recv (Encodes (Demo.receipt "m1")))
        (mkEnv "" 7) s1 = (Open, s2)
    ∧ length (sent s2) = (length (sent Demo.chatting) + 2)%nat.
Proof.
  destruct (read_receipt_twice 1 "alice" (Demo.receipt "m1") "m1"
              (Demo.from_bob "hi" DELIVERED 5)
              (mkEnv "" 6) (mkEnv "" 7) Demo.chatting)
    as (s1 & s2 & H1 & H2 & _ & _ & _ & Hsent).
  - split; [exists (JStr "read_receipt"); split; reflexivity | reflexivity].
  - by vm_compute.
  - by exists TEXT.
  - reflexivity.
  - intros ws Hws. assert (ws = 2) as -> by (vm_compute in Hws; congruence).
    apply (bool_decide_unpack _). by vm_compute.
  - exists s1, s2. split; [exact H1|]. split; [exact H2|].
    rewrite Hsent. by vm_compute.
Defined.

(** C5 as stated fails: a message m1 from bob to alice is stored and
    delivered, both are connected; alice acknowledges it twice; bob's
    connection (websocket 2) is sent the read receipt twice, not once. *)
Lemma second_read_receipt_notifies_again :
  let rr := OutReadReceipt (JStr "m1") "alice" in
  let ack := Iterate 1 (Recv (Encodes (Demo.receipt "m1"))) (mkEnv "" 6) in
  let s1 := step ack Demo.chatting in
  let s2 := step ack s1 in
  status <$> messages s1 !! "m1" = Some READ
  ∧ status <$> messages s2 !! "m1" = Some READ
  ∧ sent s1 = sent Demo.chatting ++ [(2, rr)]
  ∧ sent s2 = sent Demo.chatting ++ [(2, rr); (2, rr)].
Proof. vm_compute. repeat split; reflexivity. Qed.

(** ** Delivery status *)

Lemma db_set_status_read id : keeps only_read_written (db_set_status id READ).
Proof.
  intros s i m H. simpl. rewrite lookup_alter. case_decide as Hi.
  - subst. rewrite H. by right.
  - left. by rewrite H.
Qed.

Lemma send_personal_message_rows message u :
  keeps only_read_written (send_personal_message message u).
Proof. unfold send_personal_message, send_json. repeat keeps_step. Qed.

#[global] Hint Resolve db_set_status_read send_personal_message_rows : keeps.









(** ** History fetch *)

#[global] Instance same_messages_preorder : PreOrder same_messages.
Proof.
  split; [by intros s|].
  intros s1 s2 s3 H1 H2. unfold same_messages in *. congruence.
Qed.




Lemma load_all_eq rows s :
  load_all rows s
  = if decide (all_loadable rows) then (Ok rows, s) else (Raise LookupError, s).
Proof.
  induction rows as [|row rows IH]; simpl; [done|].
  unfold mbind at 1, M_bind at 1. rewrite load_eq.
  destruct (decide (loadable row.2)) as [Hl|Hl].
  - unfold mbind at 1, M_bind at 1. rewrite IH.
    destruct (decide (all_loadable rows)) as [Hr|Hr].
    + rewrite decide_True; [done|]. by constructor.
    + rewrite decide_False; [done|]. by intros [_ ?]%Forall_cons.
  - rewrite decide_False; [done|]. by intros [? _]%Forall_cons.
Qed.

Lemma for_each_mark cur l s :
  for_each l (λ message,
    if decide (unread_by cur message.2)
    then db_set_status message.1 READ else mret tt) s
  = (Ok tt, set_messages (λ t, foldl (mark_read cur) t l) s).
Proof.
  revert s. induction l as [|x l IH]; intros s.
  - by destruct s.
  - unfold for_each; fold @for_each. unfold mbind, M_bind.
    simpl foldl. unfold mark_read at 2.
    destruct (decide (unread_by cur x.2)); simpl; rewrite IH; by destruct s.
Qed.

Lemma mark_read_cases cur t x id :
  mark_read cur t x !! id = t !! id
  ∨ mark_read cur t x !! id = with_status READ <$> t !! id.
Proof.
  unfold mark_read. destruct (decide (unread_by cur x.2)); [|by left].
  rewrite lookup_alter. case_decide; subst; [by right | by left].
Qed.

Lemma read_twice (o : option Message) :
  with_status READ <$> (with_status READ <$> o) = with_status READ <$> o.
Proof. by destruct o. Qed.

Lemma foldl_mark_cases cur l : ∀ t id,
  foldl (mark_read cur) t l !! id = t !! id
  ∨ foldl (mark_read cur) t l !! id = with_status READ <$> t !! id.
Proof.
  induction l as [|x l IH]; intros t id; simpl; [by left|].
  destruct (IH (mark_read cur t x) id) as [-> | ->];
    destruct (mark_read_cases cur t x id) as [-> | ->];
    rewrite ?read_twice; auto.
Qed.

Lemma foldl_mark_hit cur l : ∀ t id m,
  (id, m) ∈ l → unread_by cur m →
  foldl (mark_read cur) t l !! id = with_status READ <$> t !! id.
Proof.
  induction l as [|x l IH]; intros t id m Hin Hun;
    [by apply elem_of_nil in Hin|].
  apply elem_of_cons in Hin as [<- | Hin]; simpl.
  - unfold mark_read at 2. simpl. rewrite decide_True by done.
    destruct (foldl_mark_cases cur l (alter (with_status READ) id t) id)
      as [-> | ->]; rewrite lookup_alter_eq, ?read_twice; done.
  - rewrite (IH _ _ _ Hin Hun).
    destruct (mark_read_cases cur t x id) as [-> | ->];
      rewrite ?read_twice; done.
Qed.

Lemma foldl_mark_miss cur l : ∀ t id,
  (∀ m, (id, m) ∈ l → ¬ unread_by cur m) →
  foldl (mark_read cur) t l !! id = t !! id.
Proof.
  induction l as [|x l IH]; intros t id Hno; [done|]. simpl.
  rewrite IH by (intros m Hm; apply Hno; by right).
  unfold mark_read. destruct (decide (unread_by cur x.2)) as [Hun|]; [|done].
  rewrite lookup_alter_ne; [done|]. intros <-.
  apply (Hno x.2); [|done]. destruct x; by left.
Qed.

Lemma bind_int_eq n s :
  bind_int n s = if decide (int64 n) then (Ok tt, s) else (Raise OverflowError, s).
Proof. unfold bind_int. by case_decide. Qed.

(** The fetch, case by case: the parameters are bound, the page is
    loaded, and only then anything is written. *)
Lemma get_chat_history_eq u skip limit cur order_by s :
  int64 skip → int64 limit →
  let fetched := page skip limit (order_by (conversation cur u s)) in
  get_chat_history u skip limit cur order_by s
  = if decide (all_loadable fetched)
    then (Ok (shown cur <$> fetched, length (conversation cur u s)),
          set_messages (λ t, foldl (mark_read cur) t fetched) s)
    else (Raise LookupError, s).
Proof.
  intros Hs Hl fetched. unfold get_chat_history.
  unfold mbind at 1, M_bind at 1, gets at 1.
  unfold mbind at 1, M_bind at 1. rewrite bind_int_eq, decide_True by done.
  unfold mbind at 1, M_bind at 1. rewrite bind_int_eq, decide_True by done.
  unfold mbind at 1, M_bind at 1. rewrite load_all_eq. fold fetched.
  destruct (decide (all_loadable fetched)); [|done].
  unfold mbind at 1, M_bind at 1. by rewrite for_each_mark.
Qed.

Lemma get_chat_history_overflow u skip limit cur order_by s :
  ¬ (int64 skip ∧ int64 limit) →
  get_chat_history u skip limit cur order_by s = (Raise OverflowError, s).
Proof.
  intros H. unfold get_chat_history.
  unfold mbind at 1, M_bind at 1, gets at 1.
  unfold mbind at 1, M_bind at 1. rewrite bind_int_eq.
  destruct (decide (int64 limit)); [|done].
  unfold mbind at 1, M_bind at 1. rewrite bind_int_eq.
  destruct (decide (int64 skip)); [|done]. by destruct H.
Qed.

Lemma page_subseteq skip limit (rows : list (string * Message)) :
  page skip limit rows ⊆ rows.
Proof.
  unfold page. case_decide.
  - apply subseteq_drop.
  - etrans; [apply subseteq_take | apply subseteq_drop].
Qed.

Lemma fetched_subseteq skip limit order_by rows :
  newest_first_order order_by →
  page skip limit (order_by rows) ⊆ rows.
Proof.
  intros Ho. etrans; [apply page_subseteq|]. intros x.
  destruct (Ho rows) as [Hp _]. by rewrite Hp.
Qed.

Lemma page_row u skip limit cur order_by s id m :
  newest_first_order order_by →
  (id, m) ∈ page skip limit (order_by (conversation cur u s)) →
  messages s !! id = Some m.
Proof.
  intros Ho H. apply (fetched_subseteq _ _ _ _ Ho) in H. unfold conversation in H.
  apply list_elem_of_filter in H as [_ H]. by apply elem_of_map_to_list in H.
Qed.



(** C8, as the code has it. A fetch that succeeds marks the rows of the
    page it returns, that is, of the conversation ordered newest first
    (rows of one time stamp in the database's order), [skip] rows dropped
    (none for a negative [skip]) and at most [limit] rows kept (all for
    a negative [limit]): a fetched row whose receiver is the caller ends
    at read; a row outside the page is left as it is, unread or not; so
    is every row whose receiver is not the caller. The fetch succeeds
    when every row of the page can be loaded; when one cannot, it ends
    in [LookupError] and marks nothing. *)
Theorem history_marks_fetched_page U skip limit C order_by s id m :
  newest_first_order order_by →
  int64 skip → int64 limit →
  messages s !! id = Some m →
  let fetched := page skip limit (order_by (conversation C U s)) in
  (all_loadable fetched →
   ∃ r s',
     get_chat_history U skip limit C order_by s = (Ok r, s')
     ∧ ((id, m) ∈ fetched → receiver_id m = Some C →
        messages s' !! id = Some (with_status READ m))
     ∧ ((id, m) ∉ fetched → messages s' !! id = Some m)
     ∧ (receiver_id m ≠ Some C → messages s' !! id = Some m))
  ∧ (¬ all_loadable fetched →
     get_chat_history U skip limit C order_by s = (Raise LookupError, s)).
Proof.
  intros Ho Hsk Hli Hm fetched. split; intros Hload;
    rewrite get_chat_history_eq by done; fold fetched;
    [|by rewrite decide_False].
  rewrite decide_True by done.
  eexists. eexists. split; [done|]. simpl.
  assert (Hsame : ∀ m', (id, m') ∈ fetched → m' = m).
  { intros m' Hin. apply (page_row _ _ _ _ _ _ _ _ Ho) in Hin. congruence. }
  split_and!.
  - intros Hin HC. destruct (decide (status m = READ)) as [Hst|Hst].
    + rewrite with_status_read by done.
      destruct (foldl_mark_cases C fetched (messages s) id) as [-> | ->];
        rewrite Hm; simpl; [done|]. by rewrite with_status_read.
    + rewrite (foldl_mark_hit C fetched _ id m) by done. by rewrite Hm.
  - intros Hout. rewrite foldl_mark_miss; [done|].
    intros m' Hin. by rewrite (Hsame m' Hin) in Hin.
  - intros HC. rewrite foldl_mark_miss; [done|].
    intros m' Hin [Hrecv _]. rewrite (Hsame m' Hin) in Hrecv. done.
Qed.

#[global] Instance newest_first_trans : Transitive newest_first.
Proof. intros x y z. unfold newest_first. lia. Qed.

#[global] Instance newest_first_total : Total newest_first.
Proof. intros x y. unfold newest_first. lia. Qed.

(** A stable sort is one of the orders the database may choose. *)
Lemma merge_sort_order : newest_first_order (merge_sort newest_first).
Proof.
  intros rows. split; [apply merge_sort_Permutation|].
  apply StronglySorted_merge_sort; apply _.
Qed.

Lemma history_marks_fetched_page_witness :
  ∃ r s',
    get_chat_history "bob" 0 1 "alice" (merge_sort newest_first) Demo.mailbox
    = (Ok r, s')
    ∧ messages s' !! "m2" = Some (Demo.from_bob "two" READ 2).
Proof.
  destruct (history_marks_fetched_page "bob" 0 1 "alice"
              (merge_sort newest_first) Demo.mailbox "m2"
              (Demo.from_bob "two" SENT 2))
    as [Hok _].
  - apply merge_sort_order.
  - by vm_compute.
  - by vm_compute.
  - reflexivity.
  - destruct Hok as (r & s' & Hr & Hin & _).
    + apply (bool_decide_unpack _). by vm_compute.
    + exists r, s'. split; [exact Hr|]. apply Hin; [|reflexivity].
      vm_compute. apply list_elem_of_here.
Defined.

(** C8 as stated fails: alice has two unread messages from bob and
    fetches the conversation with [limit = 1]; the newer one is marked
    read, the older one, which is hers and below read, stays at sent.
    The two rows have different time stamps, so the page is the same
    in every order the database may choose. *)
Lemma history_page_leaves_older_unread :
  newest_first_order (merge_sort newest_first)
  ∧ let s' := (get_chat_history "bob" 0 1 "alice" (merge_sort newest_first)
                 Demo.mailbox).2 in
    messages Demo.mailbox !! "m1" = Some (Demo.from_bob "one" SENT 1)
    ∧ messages s' !! "m2" = Some (Demo.from_bob "two" READ 2)
    ∧ messages s' !! "m1" = Some (Demo.from_bob "one" SENT 1).
Proof.
  split; [apply merge_sort_order|]. vm_compute. repeat split; reflexivity.
Qed.

(** ** Group admins *)

Lemma member_in_Some g mid s member :
  group_members s !! mid = Some member → gm_group_id member = g →
  member_in g mid s = Some member.
Proof. intros H Hg. unfold member_in. rewrite H. by rewrite decide_True. Qed.

Lemma remove_group_member_last_admin g mid cur s grp member :
  groups s !! g = Some grp →
  group_members s !! mid = Some member → gm_group_id member = g →
  gm_is_admin member = true → (admin_count g s ≤ 1)%nat →
  ∃ code detail,
    remove_group_member g mid cur s = (Raise (HTTPException code detail), s).
Proof.
  intros Hg Hm Hmg Ha Hc. unfold remove_group_member. mrun.
  rewrite Hg. rewrite (member_in_Some g mid s member) by done.
  case_decide; [eauto|]. rewrite Ha. simpl. rewrite decide_True by done. eauto.
Qed.

Lemma remove_group_member_ok g mid cur s grp member :
  groups s !! g = Some grp →
  group_members s !! mid = Some member → gm_group_id member = g →
  permitted g cur member s →
  (gm_is_admin member = true → (1 < admin_count g s)%nat) →
  remove_group_member g mid cur s
  = (Ok tt, set_group_members (λ t, delete mid t) s).
Proof.
  intros Hg Hm Hmg Hp Hc. unfold remove_group_member. mrun.
  rewrite Hg. rewrite (member_in_Some g mid s member) by done.
  rewrite decide_False.
  2:{ intros [Hne Hna]. destruct Hp as [?|Hp]; [done|]. congruence. }
  destruct (gm_is_admin member); simpl; [|done].
  rewrite decide_False; [done|]. specialize (Hc eq_refl). lia.
Qed.

Lemma remove_group_member_cases g mid cur s :
  (remove_group_member g mid cur s).2 = s
  ∨ ∃ member,
      group_members s !! mid = Some member ∧ gm_group_id member = g
      ∧ (gm_is_admin member = true → (1 < admin_count g s)%nat)
      ∧ (remove_group_member g mid cur s).2
        = set_group_members (λ t, delete mid t) s.
Proof.
  unfold remove_group_member. mrun.
  destruct (groups s !! g); [|by left].
  unfold member_in.
  destruct (group_members s !! mid) as [member|] eqn:Hm; [|by left].
  destruct (decide (gm_group_id member = g)) as [Hg|]; [|by left]. simpl.
  case_decide; [by left|].
  destruct (gm_is_admin member) eqn:Ha; simpl.
  - case_decide; [by left|]. right. exists member.
    split_and!; [done | done | intros _; lia | done].
  - right. exists member.
    split_and!; [done | done | intros ?; congruence | done].
Qed.

Lemma admin_count_delete g mid member s :
  group_members s !! mid = Some member →
  admin_count g (set_group_members (λ t, delete mid t) s)
  = if decide (gm_group_id member = g ∧ gm_is_admin member = true)
    then pred (admin_count g s) else admin_count g s.
Proof.
  intros Hm. unfold admin_count, admins_of. simpl.
  rewrite map_filter_delete.
  case_decide as Hd.
  - apply map_size_delete_Some. exists member. by apply map_lookup_filter_Some.
  - apply map_size_delete_None. apply map_lookup_filter_None. right.
    intros x Hx. rewrite Hm in Hx. injection Hx as <-. done.
Qed.

Lemma remove_group_member_admins g mid cur :
  keeps admins_kept (remove_group_member g mid cur).
Proof.
  intros s g' H. destruct (remove_group_member_cases g mid cur s)
    as [-> | (member & Hm & Hg & Hc & ->)]; [done|].
  rewrite (admin_count_delete _ _ member) by done.
  case_decide as Hd; [|done]. destruct Hd as [<- Ha]. rewrite Hg in *.
  specialize (Hc Ha). lia.
Qed.

Lemma same_members_admins s s' : same_members s s' → admins_kept s s'.
Proof.
  intros H g. unfold admin_count, admins_of. unfold same_members in H.
  by rewrite H.
Qed.

#[global] Instance same_group_tables_preorder : PreOrder same_group_tables.
Proof.
  split; [by intros s|].
  intros s1 s2 s3 [? ?] [? ?]. unfold same_group_tables. split; congruence.
Qed.

Lemma connect_tables ws u : keeps same_group_tables (connect ws u).
Proof. unfold connect, set_user_online, get_redis_client. repeat keeps_step. Qed.

Lemma disconnect_tables u : keeps same_group_tables (disconnect u).
Proof.
  unfold disconnect, set_user_offline, get_redis_client. repeat keeps_step.
Qed.

Lemma loop_body_tables user inp env :
  keeps same_group_tables (loop_body user inp env).
Proof.
  unfold loop_body, receive_text, on_message, on_typing, on_read_receipt,
    send_personal_message_dyn, query_message, db_add_message, load,
    db_set_status, is_user_online, get_redis_client, send_personal_message,
    send_json.
  repeat keeps_step.
Qed.

Lemma get_chat_history_tables u skip limit cur order_by :
  keeps same_group_tables (get_chat_history u skip limit cur order_by).
Proof.
  unfold get_chat_history, bind_int, db_set_status.
  repeat first [ apply load_all_keeps; apply _ | keeps_step ].
Qed.

(** Only the group routes write the group tables: a relation that holds
    between states with the same group tables and that member removal
    keeps is kept by every event. *)
Lemma step_keeps_tables (R : relation State) `{!PreOrder R} :
  (∀ s s', same_group_tables s s' → R s s') →
  (∀ g mid cur, keeps R (remove_group_member g mid cur)) →
  ∀ e s, R s (step e s).
Proof.
  intros Hsame Hremove. apply (step_keeps R).
  - intros f s0. by apply Hsame.
  - intros f s0. by apply Hsame.
  - intros f s0. by apply Hsame.
  - intros ws u. eapply keeps_weaken; [apply Hsame | apply connect_tables].
  - intros u. eapply keeps_weaken; [apply Hsame | apply disconnect_tables].
  - intros user inp env.
    eapply keeps_weaken; [apply Hsame | apply loop_body_tables].
  - intros u skip limit cur order_by.
    eapply keeps_weaken; [apply Hsame | apply get_chat_history_tables].
  - apply Hremove.
  - intros s0. by apply Hsame.
  - intros s0. by apply Hsame.
  - intros f s0. by apply Hsame.
Qed.

Lemma same_group_tables_admins s s' :
  same_group_tables s s' → admins_kept s s'.
Proof. intros [_ Hm]. by apply same_members_admins. Qed.

Lemma step_admins e s : admins_kept s (step e s).
Proof.
  apply (step_keeps_tables admins_kept).
  - apply same_group_tables_admins.
  - apply remove_group_member_admins.
Qed.

Lemma run_admins evs : ∀ s, admins_kept s (run evs s).
Proof.
  induction evs as [|e evs IH]; intros s; simpl; [reflexivity|].
  etrans; [apply step_admins | apply IH].
Qed.

(** C9. A removal request for a member row of an existing group: if the
    member is an admin and the group has no other admin, the request is
    rejected with an HTTP error, whoever asks, and nothing changes; a
    request that the endpoint's permission test lets through (the caller
    is the member or an admin of the group) for an admin beside whom
    another admin remains, or for a non-admin, succeeds and deletes the
    row; hence, along any sequence of events, a group that has an admin
    keeps one. *)
Theorem last_admin_protected g mid cur s grp member :
  groups s !! g = Some grp →
  group_members s !! mid = Some member →
  gm_group_id member = g →
  (gm_is_admin member = true → (admin_count g s ≤ 1)%nat →
   ∃ code detail,
     remove_group_member g mid cur s = (Raise (HTTPException code detail), s))
  ∧ (permitted g cur member s →
     (gm_is_admin member = true → (1 < admin_count g s)%nat) →
     remove_group_member g mid cur s
     = (Ok tt, set_group_members (λ t, delete mid t) s))
  ∧ (∀ evs g', (1 ≤ admin_count g' s)%nat → (1 ≤ admin_count g' (run evs s))%nat).
Proof.
  intros Hg Hm Hmg. split_and!.
  - intros Ha Hc. by apply (remove_group_member_last_admin g mid cur s grp member).
  - intros Hp Hc. by apply (remove_group_member_ok g mid cur s grp member).
  - intros evs g'. apply run_admins.
Qed.

Lemma last_admin_protected_witness :
  (∃ code detail,
     remove_group_member "g1" "r1" "alice" Demo.fresh
     = (Raise (HTTPException code detail), Demo.fresh))
  ∧ remove_group_member "g1" "r2" "alice" Demo.fresh
    = (Ok tt, set_group_members (λ t, delete "r2" t) Demo.fresh).
Proof.
  split.
  - destruct (last_admin_protected "g1" "r1" "alice" Demo.fresh
                (mkGroup "club" "alice") (mkGroupMember "g1" "alice" true))
      as (H & _); [reflexivity..|].
    apply H; [reflexivity|]. vm_compute. lia.
  - destruct (last_admin_protected "g1" "r2" "alice" Demo.fresh
                (mkGroup "club" "alice") (mkGroupMember "g1" "bob" false))
      as (_ & H & _); [reflexivity..|].
    apply H; [right; reflexivity | discriminate].
Defined.


(** ** Pages *)

Lemma StronglySorted_drop {A} (R : relation A) n l :
  StronglySorted R l → StronglySorted R (drop n l).
Proof.
  revert n. induction l as [|x l IH]; intros [|n] H; simpl; try done.
  apply IH. by apply StronglySorted_inv in H as [? _].
Qed.

Lemma StronglySorted_take {A} (R : relation A) n l :
  StronglySorted R l → StronglySorted R (take n l).
Proof.
  revert n. induction l as [|x l IH]; intros [|n] H; simpl;
    try by constructor.
  apply StronglySorted_inv in H as [Hl Hx]. constructor; [by apply IH|].
  eapply Forall_forall. intros y Hy. apply subseteq_take in Hy.
  by eapply Forall_forall in Hx.
Qed.

Lemma page_sorted skip limit rows :
  StronglySorted newest_first rows →
  StronglySorted newest_first (page skip limit rows).
Proof.
  intros H. unfold page. case_decide.
  - by apply StronglySorted_drop.
  - by apply StronglySorted_take, StronglySorted_drop.
Qed.

Lemma page_length skip limit (rows : list (string * Message)) :
  ((0 ≤ limit)%Z → length (page skip limit rows) ≤ Z.to_nat limit)
  ∧ length (page skip limit rows) ≤ length rows - Z.to_nat skip.
Proof.
  unfold page. case_decide.
  - rewrite length_drop. split; [lia|done].
  - rewrite length_take, length_drop. lia.
Qed.

(** Without offset and with no limit, or one the rows do not exceed, the
    page is everything. *)
Lemma page_all skip limit (rows : list (string * Message)) :
  (skip ≤ 0)%Z → (limit < 0 ∨ Z.of_nat (length rows) ≤ limit)%Z →
  page skip limit rows = rows.
Proof.
  intros Hs Hl. unfold page.
  replace (Z.to_nat skip) with 0 by lia. rewrite drop_0.
  case_decide; [done|]. apply take_ge. lia.
Qed.

(** ** Group history *)

Lemma is_member_of_true g cur s :
  is_member_of g cur s = true
  ↔ ∃ id row, group_members s !! id = Some row
              ∧ gm_group_id row = g ∧ gm_user_id row = cur.
Proof.
  unfold is_member_of, members_of. rewrite existsb_exists. split.
  - intros ([id row] & Hin & Hu). apply list_elem_of_In in Hin.
    apply list_elem_of_filter in Hin as [Hg Hin].
    apply elem_of_map_to_list in Hin. apply bool_decide_eq_true in Hu.
    exists id, row. done.
  - intros (id & row & Hrow & Hg & Hu). exists (id, row). split.
    + apply list_elem_of_In, list_elem_of_filter. split; [done|].
      by apply elem_of_map_to_list.
    + by apply bool_decide_eq_true.
Qed.

Lemma group_rows_spec g s id m :
  (id, m) ∈ group_rows g s ↔ messages s !! id = Some m ∧ group_id m = Some g.
Proof.
  unfold group_rows. rewrite list_elem_of_filter, elem_of_map_to_list.
  simpl. tauto.
Qed.

(** X15. A user with no membership row in the group gets no group
    history: an HTTP error with code 404 when no such group is stored,
    403 when it is; the state is unchanged. *)
Theorem group_history_access g skip limit cur order_by s :
  (∀ id row, group_members s !! id = Some row →
     gm_group_id row = g → gm_user_id row ≠ cur) →
  ∃ code detail,
    get_group_chat_history g skip limit cur order_by s
    = (Raise (HTTPException code detail), s)
    ∧ code = match groups s !! g with Some _ => 403%Z | None => 404%Z end.
Proof.
  intros Hno. unfold get_group_chat_history. mrun.
  destruct (groups s !! g); [|eauto].
  destruct (is_member_of g cur s) eqn:Hm; [|eauto].
  apply is_member_of_true in Hm as (id & row & Hrow & Hg & Hu).
  by destruct (Hno id row).
Qed.

Lemma group_history_access_witness :
  ∃ detail,
    get_group_chat_history "g1" 0 50 "carol" (merge_sort newest_first)
      Demo2.forum
    = (Raise (HTTPException 403 detail), Demo2.forum).
Proof.
  destruct (group_history_access "g1" 0 50 "carol" (merge_sort newest_first)
              Demo2.forum) as (code & detail & H & Hc).
  - intros id row Hrow _. unfold Demo2.forum, boot, Demo.roster in Hrow.
    simpl in Hrow.
    apply lookup_insert_Some in Hrow as [[_ <-]|[_ Hrow]]; [discriminate|].
    apply lookup_insert_Some in Hrow as [[_ <-]|[_ Hrow]]; [discriminate|].
    by rewrite lookup_empty in Hrow.
  - exists detail. rewrite H. by rewrite Hc.
Defined.

(** Past the membership test: the parameters are bound and the page is
    loaded. *)
Lemma get_group_chat_history_member g grp skip limit cur order_by mid row s :
  groups s !! g = Some grp →
  group_members s !! mid = Some row →
  gm_group_id row = g → gm_user_id row = cur →
  int64 skip → int64 limit →
  let fetched := page skip limit (order_by (group_rows g s)) in
  get_group_chat_history g skip limit cur order_by s
  = (if decide (all_loadable fetched)
     then Ok (fetched, length (group_rows g s)) else Raise LookupError, s).
Proof.
  intros Hg Hrow Hrg Hru Hsk Hli fetched. unfold get_group_chat_history.
  unfold mbind at 1, M_bind at 1, gets at 1. rewrite Hg.
  unfold mbind at 1, M_bind at 1, gets at 1.
  assert (is_member_of g cur s = true) as ->
    by (apply is_member_of_true; eauto).
  unfold mbind at 1, M_bind at 1, gets at 1.
  unfold mbind at 1, M_bind at 1. rewrite bind_int_eq, decide_True by done.
  unfold mbind at 1, M_bind at 1. rewrite bind_int_eq, decide_True by done.
  unfold mbind at 1, M_bind at 1. rewrite load_all_eq. fold fetched.
  by destruct (decide (all_loadable fetched)).
Qed.

(** X16. A member of a stored group who asks for its history, with
    parameters that can be bound: the page is the group's messages,
    newest first, [skip] rows dropped and at most [limit] kept (all for
    a negative [limit]); when every row of it can be loaded it is
    returned with the count of all the group's messages, otherwise the
    request ends in [LookupError]; the state is unchanged either way.
    Without offset and with a limit the count does not exceed, the page
    holds every message of the group. *)
Theorem group_history_for_member g grp skip limit cur order_by mid row s :
  groups s !! g = Some grp →
  group_members s !! mid = Some row →
  gm_group_id row = g → gm_user_id row = cur →
  newest_first_order order_by →
  int64 skip → int64 limit →
  let fetched := page skip limit (order_by (group_rows g s)) in
  get_group_chat_history g skip limit cur order_by s
  = (if decide (all_loadable fetched)
     then Ok (fetched, length (group_rows g s)) else Raise LookupError, s)
  ∧ ((0 ≤ limit)%Z → length fetched ≤ Z.to_nat limit)
  ∧ StronglySorted newest_first fetched
  ∧ (∀ id m, (id, m) ∈ fetched →
       messages s !! id = Some m ∧ group_id m = Some g)
  ∧ ((skip ≤ 0)%Z → (limit < 0 ∨ Z.of_nat (length (group_rows g s)) ≤ limit)%Z →
     ∀ id m, messages s !! id = Some m → group_id m = Some g →
             (id, m) ∈ fetched).
Proof.
  intros Hg Hrow Hrg Hru Ho Hsk Hli fetched.
  destruct (Ho (group_rows g s)) as [Hperm Hsorted].
  split_and!.
  - by apply (get_group_chat_history_member g grp skip limit cur order_by
                mid row).
  - apply page_length.
  - by apply page_sorted.
  - intros id m Hin. apply page_subseteq in Hin. rewrite Hperm in Hin.
    by apply group_rows_spec.
  - intros Hs Hl id m Hm Hgm. subst fetched.
    rewrite page_all; [| done | by rewrite Hperm].
    rewrite Hperm. by apply group_rows_spec.
Qed.

Lemma group_history_for_member_witness :
  ∃ rows,
    get_group_chat_history "g1" 0 1 "bob" (merge_sort newest_first)
      Demo2.forum
    = (Ok (rows, 2), Demo2.forum)
    ∧ length rows ≤ 1.
Proof.
  destruct (group_history_for_member "g1" (mkGroup "club" "alice") 0 1 "bob"
              (merge_sort newest_first)
              "r2" (mkGroupMember "g1" "bob" false) Demo2.forum)
    as (H & Hlen & _); [by vm_compute.. | apply merge_sort_order
                       | by vm_compute | by vm_compute |].
  eexists. split; [|apply Hlen; lia]. rewrite H. by vm_compute.
Defined.

(** ** Groups and their members *)

Lemma db_add_group_fresh id g s :
  groups s !! id = None →
  db_add_group id g s = (Ok tt, set_groups (λ t, <[id := g]> t) s).
Proof. intros H. unfold db_add_group. mrun. by rewrite H. Qed.

Lemma db_add_group_member_fresh id row s :
  group_members s !! id = None →
  db_add_group_member id row s
  = (Ok tt, set_group_members (λ t, <[id := row]> t) s).
Proof. intros H. unfold db_add_group_member. mrun. by rewrite H. Qed.

Lemma has_member_row_true g u s :
  has_member_row g u s = true
  ↔ ∃ id row, group_members s !! id = Some row
              ∧ gm_group_id row = g ∧ gm_user_id row = u.
Proof.
  unfold has_member_row. rewrite bool_decide_eq_true. split.
  - intros H. apply map_choose in H as (id & row & H).
    apply map_lookup_filter_Some in H as [H [H1 H2]]. eauto.
  - intros (id & row & H & H1 & H2) He.
    assert (Hin : filter (λ kv, gm_group_id kv.2 = g ∧ gm_user_id kv.2 = u)
                    (group_members s) !! id = Some row).
    { apply map_lookup_filter_Some. done. }
    rewrite He in Hin. by rewrite lookup_empty in Hin.
Qed.

Lemma is_admin_of_true g u s :
  is_admin_of g u s = true
  ↔ ∃ id row, group_members s !! id = Some row ∧ gm_group_id row = g
              ∧ gm_user_id row = u ∧ gm_is_admin row = true.
Proof.
  unfold is_admin_of. rewrite bool_decide_eq_true. split.
  - intros H. apply map_choose in H as (id & row & H).
    apply map_lookup_filter_Some in H as [H (H1 & H2 & H3)]. eauto 10.
  - intros (id & row & H & H1 & H2 & H3) He.
    assert (Hin : filter (λ kv, gm_group_id kv.2 = g ∧ gm_user_id kv.2 = u
                                ∧ gm_is_admin kv.2 = true)
                    (group_members s) !! id = Some row).
    { apply map_lookup_filter_Some. done. }
    rewrite He in Hin. by rewrite lookup_empty in Hin.
Qed.

Lemma admin_count_insert g id row s :
  group_members s !! id = None →
  admin_count g (set_group_members (λ t, <[id := row]> t) s)
  = if decide (gm_group_id row = g ∧ gm_is_admin row = true)
    then S (admin_count g s) else admin_count g s.
Proof.
  intros Hfresh. unfold admin_count, admins_of. simpl. case_decide as Hd.
  - rewrite map_filter_insert_True by done.
    apply map_size_insert_None. apply map_lookup_filter_None. by left.
  - rewrite map_filter_insert_False by done.
    by rewrite delete_id.
Qed.

Lemma admin_count_pos g s :
  1 ≤ admin_count g s
  ↔ ∃ id row, group_members s !! id = Some row ∧ gm_group_id row = g
              ∧ gm_is_admin row = true.
Proof.
  unfold admin_count, admins_of. split.
  - intros H.
    destruct (map_choose (filter (λ kv, gm_group_id kv.2 = g
                                        ∧ gm_is_admin kv.2 = true)
                            (group_members s))) as (id & row & Hr).
    { intros He. rewrite He, map_size_empty in H. lia. }
    apply map_lookup_filter_Some in Hr as [Hr [H1 H2]]. eauto.
  - intros (id & row & Hr & H1 & H2).
    assert (Hin : filter (λ kv, gm_group_id kv.2 = g ∧ gm_is_admin kv.2 = true)
                    (group_members s) !! id = Some row).
    { by apply map_lookup_filter_Some. }
    destruct (size _) eqn:Hsz; [|lia].
    apply map_size_empty_iff in Hsz. rewrite Hsz in Hin.
    by rewrite lookup_empty in Hin.
Qed.

Lemma create_group_fresh name cur gid mid s :
  groups s !! gid = None → group_members s !! mid = None →
  create_group name cur gid mid s
  = (Ok (gid, mkGroup name cur),
     set_group_members (λ t, <[mid := mkGroupMember gid cur true]> t)
       (set_groups (λ t, <[gid := mkGroup name cur]> t) s)).
Proof.
  intros Hg Hm. unfold create_group.
  unfold mbind at 1, M_bind at 1. rewrite db_add_group_fresh by done.
  unfold mbind at 1, M_bind at 1. by rewrite db_add_group_member_fresh.
Qed.

Lemma create_group_cases name cur gid mid s :
  create_group name cur gid mid s = (Raise IntegrityError, s)
  ∨ (groups s !! gid = None
     ∧ create_group name cur gid mid s
       = (Raise IntegrityError,
          set_groups (λ t, <[gid := mkGroup name cur]> t) s))
  ∨ (groups s !! gid = None ∧ group_members s !! mid = None
     ∧ create_group name cur gid mid s
       = (Ok (gid, mkGroup name cur),
          set_group_members (λ t, <[mid := mkGroupMember gid cur true]> t)
            (set_groups (λ t, <[gid := mkGroup name cur]> t) s))).
Proof.
  destruct (groups s !! gid) as [x|] eqn:Hg.
  - left. unfold create_group, db_add_group. mrun. by rewrite Hg.
  - destruct (group_members s !! mid) as [y|] eqn:Hm.
    + right. left. split; [done|]. unfold create_group.
      unfold mbind at 1, M_bind at 1. rewrite db_add_group_fresh by done.
      unfold mbind at 1, M_bind at 1, db_add_group_member. mrun.
      by rewrite Hm.
    + right. right. split_and!; [done..|]. by apply create_group_fresh.
Qed.

Lemma add_group_member_cases g u adm cur uuid s :
  (add_group_member g u adm cur uuid s).2 = s
  ∨ (is_Some (groups s !! g) ∧ has_member_row g u s = false
     ∧ group_members s !! uuid = None
     ∧ add_group_member g u adm cur uuid s
       = (Ok (uuid, mkGroupMember g u adm),
          set_group_members (λ t, <[uuid := mkGroupMember g u adm]> t) s)).
Proof.
  unfold add_group_member. mrun.
  destruct (groups s !! g) eqn:Hg; [|by left].
  destruct (is_admin_of g cur s); simpl; [|by left].
  destruct (bool_decide (u ∈ users s)); simpl; [|by left].
  destruct (has_member_row g u s) eqn:Hex; [by left|].
  unfold db_add_group_member. mrun.
  destruct (group_members s !! uuid) eqn:Hid; simpl; [by left|].
  right. split_and!; eauto.
Qed.

Lemma filter_none {A} (P : A → Prop) `{!∀ x, Decision (P x)} (l : list A) :
  (∀ x, x ∈ l → ¬ P x) → filter P l = [].
Proof.
  induction l as [|x l IH]; intros Hall; [done|].
  rewrite filter_cons_False by (apply Hall; by left).
  apply IH. intros y Hy. apply Hall. by right.
Qed.

Lemma members_of_insert g id row s :
  group_members s !! id = None →
  members_of g (set_group_members (λ t, <[id := row]> t) s)
  ≡ₚ if decide (gm_group_id row = g)
     then (id, row) :: members_of g s else members_of g s.
Proof.
  intros Hfresh. unfold members_of. simpl.
  rewrite map_to_list_insert by done. case_decide.
  - by rewrite filter_cons_True.
  - by rewrite filter_cons_False.
Qed.

(** X19. create_group with two unused ids, on a well formed roster:
    the group is stored, the creator's membership row is the group's
    only row, it is an admin row (the admin count is 1), and the groups,
    members and admin counts of all other groups are as before. *)
Theorem create_group_makes_creator_sole_admin name cur gid mid s :
  roster_ok s →
  groups s !! gid = None →
  group_members s !! mid = None →
  ∃ s',
    create_group name cur gid mid s = (Ok (gid, mkGroup name cur), s')
    ∧ groups s' !! gid = Some (mkGroup name cur)
    ∧ members_of gid s' = [(mid, mkGroupMember gid cur true)]
    ∧ admin_count gid s' = 1
    ∧ is_admin_of gid cur s' = true
    ∧ ∀ g, g ≠ gid → groups s' !! g = groups s !! g
                     ∧ members_of g s' ≡ₚ members_of g s
                     ∧ admin_count g s' = admin_count g s.
Proof.
  intros [Href _] Hg Hm. eexists. split; [by apply create_group_fresh|].
  set (row := mkGroupMember gid cur true).
  set (s0 := set_groups (λ t, <[gid := mkGroup name cur]> t) s).
  assert (Hnone : ∀ id r, group_members s !! id = Some r →
                          gm_group_id r ≠ gid).
  { intros id r Hrow Heq. destruct (Href id r Hrow) as [x Hx].
    rewrite Heq in Hx. congruence. }
  assert (Hold : members_of gid s0 = []).
  { unfold members_of. apply filter_none. intros [id r] Hin.
    apply elem_of_map_to_list in Hin. simpl. by apply (Hnone id). }
  assert (Hcount : admin_count gid s = 0).
  { destruct (admin_count gid s) eqn:Hc; [done|].
    assert (1 ≤ admin_count gid s) as Hpos by lia.
    apply admin_count_pos in Hpos as (id & r & Hr & Hgr & _).
    by destruct (Hnone id r). }
  split_and!.
  - simpl. apply lookup_insert_eq.
  - apply Permutation_singleton_r.
    rewrite (members_of_insert gid mid row s0) by done.
    rewrite decide_True by done. by rewrite Hold.
  - rewrite (admin_count_insert gid mid row s0) by done.
    rewrite decide_True by done.
    change (admin_count gid s0) with (admin_count gid s). by rewrite Hcount.
  - apply is_admin_of_true. exists mid, row. simpl.
    by rewrite lookup_insert_eq.
  - intros g Hne. split_and!.
    + simpl. by rewrite lookup_insert_ne.
    + rewrite (members_of_insert g mid row s0) by done.
      by rewrite decide_False.
    + rewrite (admin_count_insert g mid row s0) by done.
      rewrite decide_False; [done|]. by intros [? _].
Qed.

Lemma boot_roster_ok us ms : roster_ok (boot us ms ∅ ∅).
Proof.
  split.
  - intros id row H. simpl in H. by rewrite lookup_empty in H.
  - intros id1 id2 r1 r2 H. simpl in H. by rewrite lookup_empty in H.
Qed.

Lemma create_group_makes_creator_sole_admin_witness :
  ∃ s',
    create_group "chess" "alice" "g7" "r7" Demo2.empty
    = (Ok ("g7", mkGroup "chess" "alice"), s')
    ∧ admin_count "g7" s' = 1.
Proof.
  destruct (create_group_makes_creator_sole_admin "chess" "alice" "g7" "r7"
              Demo2.empty) as (s' & H & _ & _ & Hc & _).
  - apply boot_roster_ok.
  - by vm_compute.
  - by vm_compute.
  - exists s'. split; [exact H | exact Hc].
Defined.

(** X20. add_group_member is rejected, with the state unchanged, when the
    group is not stored (404), else when the caller is no admin of it
    (403), else when the user to add is unknown (404), else when that
    user has a row in the group already (400); the checks come in this
    order. *)
Theorem add_group_member_rejections g u adm cur uuid s :
  groups s !! g = None
  ∨ is_admin_of g cur s = false
  ∨ u ∉ users s
  ∨ has_member_row g u s = true →
  ∃ code detail,
    add_group_member g u adm cur uuid s
    = (Raise (HTTPException code detail), s)
    ∧ code =
      if bool_decide (is_Some (groups s !! g)) then
        if is_admin_of g cur s then
          if bool_decide (u ∈ users s) then 400%Z else 404%Z
        else 403%Z
      else 404%Z.
Proof.
  intros H. unfold add_group_member. mrun.
  destruct (groups s !! g) as [grp|] eqn:Hg; simpl.
  2:{ by eexists _, _. }
  destruct (is_admin_of g cur s) eqn:Ha; simpl; [|eauto].
  destruct (bool_decide (u ∈ users s)) eqn:Hu; simpl; [|eauto].
  destruct (has_member_row g u s) eqn:Hex; [eauto|].
  apply bool_decide_eq_true in Hu.
  destruct H as [?|[?|[?|?]]]; done.
Qed.

Lemma add_group_member_rejections_witness :
  ∃ detail,
    add_group_member "g1" "carol" false "bob" "r9" Demo.fresh
    = (Raise (HTTPException 403 detail), Demo.fresh).
Proof.
  destruct (add_group_member_rejections "g1" "carol" false "bob" "r9"
              Demo.fresh) as (code & detail & H & Hc).
  - right. left. by vm_compute.
  - exists detail. rewrite H. rewrite Hc. by vm_compute.
Defined.

Lemma add_group_member_ok g grp u adm cur uuid s :
  groups s !! g = Some grp →
  is_admin_of g cur s = true →
  u ∈ users s →
  has_member_row g u s = false →
  group_members s !! uuid = None →
  add_group_member g u adm cur uuid s
  = (Ok (uuid, mkGroupMember g u adm),
     set_group_members (λ t, <[uuid := mkGroupMember g u adm]> t) s).
Proof.
  intros Hg Ha Hu Hex Hid. unfold add_group_member. mrun.
  rewrite Hg, Ha. simpl. rewrite bool_decide_eq_true_2 by done. simpl.
  rewrite Hex. unfold db_add_group_member. mrun. by rewrite Hid.
Qed.

(** X21. add_group_member by an admin of a stored group, for a known user
    who has no row in it, with an unused id: the row is inserted, the
    user has a row in the group, is an admin exactly when asked so, and
    the admin count grows by one exactly in that case. *)
Theorem add_group_member_inserts g grp u adm cur uuid s :
  groups s !! g = Some grp →
  is_admin_of g cur s = true →
  u ∈ users s →
  has_member_row g u s = false →
  group_members s !! uuid = None →
  ∃ s',
    add_group_member g u adm cur uuid s
    = (Ok (uuid, mkGroupMember g u adm), s')
    ∧ group_members s' = <[uuid := mkGroupMember g u adm]> (group_members s)
    ∧ has_member_row g u s' = true
    ∧ is_admin_of g u s' = adm
    ∧ admin_count g s' = (admin_count g s + if adm then 1 else 0).
Proof.
  intros Hg Ha Hu Hex Hid. eexists. split; [by eapply add_group_member_ok|].
  split_and!.
  - done.
  - apply has_member_row_true. exists uuid, (mkGroupMember g u adm).
    simpl. by rewrite lookup_insert_eq.
  - destruct adm.
    + apply is_admin_of_true. exists uuid, (mkGroupMember g u true).
      simpl. by rewrite lookup_insert_eq.
    + apply not_true_is_false. intros H.
      apply is_admin_of_true in H as (id & row & Hrow & H1 & H2 & H3).
      simpl in Hrow. apply lookup_insert_Some in Hrow as [[_ <-]|[_ Hrow]];
        [done|].
      assert (has_member_row g u s = true); [|congruence].
      apply has_member_row_true. eauto.
  - rewrite admin_count_insert by done. simpl. destruct adm.
    + rewrite decide_True by done. lia.
    + rewrite decide_False by (by intros [_ ?]). lia.
Qed.

Lemma add_group_member_inserts_witness :
  ∃ s',
    add_group_member "g1" "carol" true "alice" "r9" Demo.fresh
    = (Ok ("r9", mkGroupMember "g1" "carol" true), s')
    ∧ admin_count "g1" s' = 2.
Proof.
  destruct (add_group_member_inserts "g1" (mkGroup "club" "alice") "carol" true
              "alice" "r9" Demo.fresh) as (s' & H & _ & _ & _ & Hc).
  - by vm_compute.
  - by vm_compute.
  - apply (bool_decide_unpack _). by vm_compute.
  - by vm_compute.
  - by vm_compute.
  - exists s'. split; [exact H|]. rewrite Hc. by vm_compute.
Defined.

(** Adding a member and removing the new row again restores the state. *)
Lemma set_group_members_undo id row s :
  group_members s !! id = None →
  set_group_members (λ t, delete id t)
    (set_group_members (λ t, <[id := row]> t) s) = s.
Proof.
  intros H. destruct s. unfold set_group_members. simpl in *.
  f_equal. rewrite delete_insert_eq. by apply delete_id.
Qed.

Lemma is_admin_of_insert g u id row s :
  group_members s !! id = None →
  is_admin_of g u s = true →
  is_admin_of g u (set_group_members (λ t, <[id := row]> t) s) = true.
Proof.
  intros Hid H. apply is_admin_of_true in H as (i & r & Hr & H).
  apply is_admin_of_true. exists i, r. split; [|done]. simpl.
  rewrite lookup_insert_ne; [done|]. intros <-. congruence.
Qed.

(** X22. Whenever add_group_member succeeds, the same caller can remove
    the new row at once, and that restores the state before the add. *)
Theorem add_then_remove_round_trip g u adm cur uuid s r s1 :
  add_group_member g u adm cur uuid s = (Ok r, s1) →
  r = (uuid, mkGroupMember g u adm)
  ∧ remove_group_member g r.1 cur s1 = (Ok tt, s).
Proof.
  intros Hadd.
  assert (Hs : (add_group_member g u adm cur uuid s).2 = s1)
    by (by rewrite Hadd).
  unfold add_group_member in Hadd. mrun.
  destruct (groups s !! g) as [grp|] eqn:Hg; [|done].
  destruct (is_admin_of g cur s) eqn:Ha; simpl in Hadd; [|done].
  destruct (bool_decide (u ∈ users s)) eqn:Hu; simpl in Hadd; [|done].
  destruct (has_member_row g u s) eqn:Hex; [done|].
  unfold db_add_group_member in Hadd. mrun.
  destruct (group_members s !! uuid) eqn:Hid; simpl in Hadd; [done|].
  injection Hadd as <- <-. split; [done|]. simpl.
  set (row := mkGroupMember g u adm).
  rewrite (remove_group_member_ok g uuid cur _ grp row).
  - by rewrite set_group_members_undo.
  - done.
  - simpl. apply lookup_insert_eq.
  - done.
  - right. by apply is_admin_of_insert.
  - intros Hadm. rewrite admin_count_insert by done.
    assert (1 ≤ admin_count g s).
    { apply admin_count_pos. apply is_admin_of_true in Ha
        as (i & r0 & Hr & H1 & _ & H3). eauto. }
    rewrite decide_True by done. lia.
Qed.

Lemma add_then_remove_round_trip_witness :
  ∃ s1,
    add_group_member "g1" "carol" true "alice" "r9" Demo.fresh
    = (Ok ("r9", mkGroupMember "g1" "carol" true), s1)
    ∧ remove_group_member "g1" "r9" "alice" s1 = (Ok tt, Demo.fresh).
Proof.
  destruct (add_group_member "g1" "carol" true "alice" "r9" Demo.fresh)
    as [[r|e] s1] eqn:Hadd; [|by vm_compute in Hadd].
  destruct (add_then_remove_round_trip _ _ _ _ _ _ _ _ Hadd) as [-> H].
  exists s1. split; [done | exact H].
Defined.

(** ** The roster stays well formed *)

Lemma same_group_tables_roster s s' :
  same_group_tables s s' → maintains roster_ok s s'.
Proof. intros [Hg Hm] H. unfold roster_ok. rewrite Hg, Hm. exact H. Qed.

Lemma roster_ok_delete mid s :
  roster_ok s → roster_ok (set_group_members (λ t, delete mid t) s).
Proof.
  intros [Href Huniq]. split; simpl.
  - intros id row H. apply lookup_delete_Some in H as [_ H]. by eapply Href.
  - intros id1 id2 r1 r2 H1 H2.
    apply lookup_delete_Some in H1 as [_ H1].
    apply lookup_delete_Some in H2 as [_ H2]. by eapply Huniq.
Qed.

Lemma roster_ok_insert_group gid grp s :
  roster_ok s → roster_ok (set_groups (λ t, <[gid := grp]> t) s).
Proof.
  intros [Href Huniq]. split; simpl; [|done].
  intros id row H. destruct (decide (gm_group_id row = gid)) as [->|Hne].
  - rewrite lookup_insert_eq. eauto.
  - rewrite lookup_insert_ne by done. by eapply Href.
Qed.

Lemma roster_ok_insert_member id row s :
  roster_ok s →
  is_Some (groups s !! gm_group_id row) →
  has_member_row (gm_group_id row) (gm_user_id row) s = false →
  roster_ok (set_group_members (λ t, <[id := row]> t) s).
Proof.
  intros [Href Huniq] Hg Hex.
  assert (Hnew : ∀ i r, group_members s !! i = Some r →
            gm_group_id r = gm_group_id row →
            gm_user_id r = gm_user_id row → False).
  { intros i r Hr H1 H2.
    assert (has_member_row (gm_group_id row) (gm_user_id row) s = true);
      [|congruence].
    apply has_member_row_true. eauto. }
  split; simpl.
  - intros i r H. apply lookup_insert_Some in H as [[_ <-]|[_ H]]; [done|].
    by eapply Href.
  - intros id1 id2 r1 r2 H1 H2 Hg12 Hu12.
    apply lookup_insert_Some in H1 as [[<- <-]|[Hn1 H1]];
      apply lookup_insert_Some in H2 as [[<- <-]|[Hn2 H2]].
    + done.
    + by destruct (Hnew id2 r2).
    + by destruct (Hnew id1 r1).
    + by eapply Huniq.
Qed.

Lemma has_member_row_false g u s :
  (∀ id row, group_members s !! id = Some row → gm_group_id row ≠ g) →
  has_member_row g u s = false.
Proof.
  intros H. apply not_true_is_false. intros Ht.
  apply has_member_row_true in Ht as (id & row & Hr & Hg & _).
  by destruct (H id row).
Qed.

Lemma remove_group_member_roster g mid cur :
  keeps (maintains roster_ok) (remove_group_member g mid cur).
Proof.
  intros s H. destruct (remove_group_member_cases g mid cur s)
    as [-> | (member & _ & _ & _ & ->)]; [done|].
  by apply roster_ok_delete.
Qed.

Lemma create_group_roster name cur gid mid s :
  maintains roster_ok s (create_group name cur gid mid s).2.
Proof.
  intros H. destruct (create_group_cases name cur gid mid s)
    as [-> | [[Hg ->] | (Hg & Hm & ->)]]; simpl.
  - done.
  - by apply roster_ok_insert_group.
  - apply roster_ok_insert_member.
    + by apply roster_ok_insert_group.
    + simpl. rewrite lookup_insert_eq. eauto.
    + apply has_member_row_false. simpl. intros id row Hr Heq.
      destruct H as [Href _]. destruct (Href id row Hr) as [x Hx].
      rewrite Heq in Hx. congruence.
Qed.

Lemma add_group_member_roster g u adm cur uuid s :
  maintains roster_ok s (add_group_member g u adm cur uuid s).2.
Proof.
  intros H. destruct (add_group_member_cases g u adm cur uuid s)
    as [-> | (Hg & Hex & Hid & ->)]; [done|]. simpl.
  by apply roster_ok_insert_member.
Qed.

Lemma step_roster e s : maintains roster_ok s (step e s).
Proof.
  apply (step_keeps_tables (maintains roster_ok)).
  - apply same_group_tables_roster.
  - apply remove_group_member_roster.
Qed.

Lemma serve_roster r s : maintains roster_ok s (serve r s).
Proof.
  destruct r; simpl.
  - apply step_roster.
  - apply create_group_roster.
  - apply add_group_member_roster.
Qed.

(** X23. Along any sequence of requests (websocket events, history
    fetches, removals, group creations and member additions), a roster
    that is well formed stays so: every membership row names a stored
    group, and no user has two rows in one group. *)
Theorem roster_stays_well_formed rs s :
  roster_ok s →
  let s' := serve_all rs s in
  (∀ id row, group_members s' !! id = Some row →
     is_Some (groups s' !! gm_group_id row))
  ∧ (∀ id1 id2 row1 row2,
       group_members s' !! id1 = Some row1 →
       group_members s' !! id2 = Some row2 →
       gm_group_id row1 = gm_group_id row2 →
       gm_user_id row1 = gm_user_id row2 → id1 = id2).
Proof.
  revert s. induction rs as [|r rs IH]; intros s H; simpl; [done|].
  by apply IH, serve_roster.
Qed.

Lemma roster_stays_well_formed_witness :
  roster_ok
    (serve_all [CreateGroup "chess" "alice" "g7" "r7";
                AddGroupMember "g7" "bob" false "alice" "r8";
                Server (RemoveGroupMember "g7" "r8" "bob")] Demo2.empty).
Proof.
  apply (roster_stays_well_formed
           [CreateGroup "chess" "alice" "g7" "r7";
            AddGroupMember "g7" "bob" false "alice" "r8";
            Server (RemoveGroupMember "g7" "r8" "bob")] Demo2.empty).
  apply boot_roster_ok.
Defined.

(** ** Admins across all requests *)

Lemma create_group_admins name cur gid mid s :
  admins_kept s (create_group name cur gid mid s).2.
Proof.
  intros g H. destruct (create_group_cases name cur gid mid s)
    as [-> | [[Hg ->] | (Hg & Hm & ->)]]; simpl; [done..|].
  rewrite admin_count_insert by done. case_decide; [lia|done].
Qed.

Lemma add_group_member_admins g u adm cur uuid s :
  admins_kept s (add_group_member g u adm cur uuid s).2.
Proof.
  intros g' H. destruct (add_group_member_cases g u adm cur uuid s)
    as [-> | (Hg & Hex & Hid & ->)]; [done|]. simpl.
  rewrite admin_count_insert by done. case_decide; [lia|done].
Qed.

Lemma serve_admins r s : admins_kept s (serve r s).
Proof.
  destruct r as [e| |]; simpl.
  - apply step_admins.
  - apply create_group_admins.
  - apply add_group_member_admins.
Qed.

Lemma serve_all_admins rs : ∀ s, admins_kept s (serve_all rs s).
Proof.
  induction rs as [|r rs IH]; intros s; simpl; [reflexivity|].
  etrans; [apply serve_admins | apply IH].
Qed.

Lemma create_group_Ok name cur gid mid s r s1 :
  create_group name cur gid mid s = (Ok r, s1) →
  r = (gid, mkGroup name cur)
  ∧ groups s !! gid = None ∧ group_members s !! mid = None
  ∧ s1 = set_group_members (λ t, <[mid := mkGroupMember gid cur true]> t)
           (set_groups (λ t, <[gid := mkGroup name cur]> t) s).
Proof.
  intros H. destruct (create_group_cases name cur gid mid s)
    as [He | [[Hg He] | (Hg & Hm & He)]]; rewrite He in H; [done..|].
  by injection H as <- <-.
Qed.

(** X24. A group created through create_group has its creator as admin,
    and keeps at least one admin along every later sequence of
    requests. *)
Theorem created_group_keeps_an_admin name cur gid mid s r s1 rs :
  create_group name cur gid mid s = (Ok r, s1) →
  r.1 = gid
  ∧ is_admin_of gid cur s1 = true
  ∧ 1 ≤ admin_count gid (serve_all rs s1).
Proof.
  intros H. apply create_group_Ok in H as (-> & Hg & Hm & ->).
  split_and!; [done| |].
  - apply is_admin_of_true. exists mid, (mkGroupMember gid cur true).
    simpl. by rewrite lookup_insert_eq.
  - apply serve_all_admins. rewrite admin_count_insert by done.
    rewrite decide_True by done. lia.
Qed.

Lemma created_group_keeps_an_admin_witness :
  1 ≤ admin_count "g7"
        (serve_all [AddGroupMember "g7" "bob" false "alice" "r8";
                    Server (RemoveGroupMember "g7" "r7" "alice")]
           (create_group "chess" "alice" "g7" "r7" Demo2.empty).2).
Proof.
  destruct (create_group "chess" "alice" "g7" "r7" Demo2.empty)
    as [[r|e] s1] eqn:Hc; [|by vm_compute in Hc].
  by destruct (created_group_keeps_an_admin _ _ _ _ _ _ _
                 [AddGroupMember "g7" "bob" false "alice" "r8";
                  Server (RemoveGroupMember "g7" "r7" "alice")] Hc)
    as (_ & _ & H).
Defined.

(** ** Membership and access *)

Lemma add_group_member_Ok g u adm cur uuid s r s1 :
  add_group_member g u adm cur uuid s = (Ok r, s1) →
  r = (uuid, mkGroupMember g u adm)
  ∧ is_Some (groups s !! g) ∧ group_members s !! uuid = None
  ∧ s1 = set_group_members (λ t, <[uuid := mkGroupMember g u adm]> t) s.
Proof.
  intros H. destruct (add_group_member_cases g u adm cur uuid s)
    as [He | (Hg & Hex & Hid & He)].
  - exfalso. revert H He. unfold add_group_member. mrun.
    destruct (groups s !! g); [|done].
    destruct (is_admin_of g cur s); simpl; [|done].
    destruct (bool_decide (u ∈ users s)); simpl; [|done].
    destruct (has_member_row g u s); [done|].
    unfold db_add_group_member. mrun.
    destruct (group_members s !! uuid) eqn:Hid; simpl; [done|].
    intros _ Hs. apply (f_equal group_members) in Hs. simpl in Hs.
    apply (f_equal (λ t, t !! uuid)) in Hs.
    rewrite lookup_insert_eq in Hs. congruence.
  - rewrite He in H. by injection H as <- <-.
Qed.

Lemma get_group_by_id_member g grp cur mid row s :
  groups s !! g = Some grp →
  group_members s !! mid = Some row →
  gm_group_id row = g → gm_user_id row = cur →
  get_group_by_id g cur s = (Ok grp, s).
Proof.
  intros Hg Hrow Hrg Hru. unfold get_group_by_id. mrun. rewrite Hg.
  assert (has_member_row g cur s = true) as ->; [|done].
  apply has_member_row_true. eauto.
Qed.

(** X25. Whenever add_group_member succeeds, the added user passes the
    membership test of both readers at once: get_group_by_id returns the
    group, and get_group_chat_history, with parameters that can be bound,
    answers with the page when its rows can be loaded and ends in
    [LookupError] otherwise, never in 403 or 404. *)
Theorem added_member_gains_access
    g u adm cur uuid s r s1 skip limit order_by :
  add_group_member g u adm cur uuid s = (Ok r, s1) →
  int64 skip → int64 limit →
  (∃ grp, groups s !! g = Some grp
          ∧ get_group_by_id g u s1 = (Ok grp, s1))
  ∧ let fetched := page skip limit (order_by (group_rows g s1)) in
    get_group_chat_history g skip limit u order_by s1
    = (if decide (all_loadable fetched)
       then Ok (fetched, length (group_rows g s1)) else Raise LookupError,
       s1).
Proof.
  intros H Hsk Hli. apply add_group_member_Ok in H as (-> & [grp Hg] & Hid & ->).
  set (row := mkGroupMember g u adm).
  assert (Hrow : group_members
            (set_group_members (λ t, <[uuid := row]> t) s) !! uuid = Some row)
    by (simpl; apply lookup_insert_eq).
  split.
  - exists grp. split; [done|].
    by apply (get_group_by_id_member g grp u uuid row).
  - by apply (get_group_chat_history_member g grp skip limit u order_by
                uuid row).
Qed.

Lemma added_member_gains_access_witness :
  ∃ s1 rows total,
    add_group_member "g1" "carol" false "alice" "r9" Demo.fresh
    = (Ok ("r9", mkGroupMember "g1" "carol" false), s1)
    ∧ get_group_chat_history "g1" 0 50 "carol" (merge_sort newest_first) s1
      = (Ok (rows, total), s1).
Proof.
  assert (H0 : int64 0) by (by vm_compute).
  assert (H50 : int64 50) by (by vm_compute).
  set (s1 := set_group_members
               (λ t, <["r9" := mkGroupMember "g1" "carol" false]> t)
               Demo.fresh).
  assert (Hadd : add_group_member "g1" "carol" false "alice" "r9" Demo.fresh
                 = (Ok ("r9", mkGroupMember "g1" "carol" false), s1))
    by (vm_compute; reflexivity).
  pose proof (added_member_gains_access _ _ _ _ _ _ _ _ 0 50
                (merge_sort newest_first) Hadd H0 H50) as [_ H].
  cbv zeta in H. exists s1. eexists _, _. split; [exact Hadd|].
  rewrite H. by vm_compute.
Defined.

Lemma remove_group_member_Ok g mid cur s s1 :
  remove_group_member g mid cur s = (Ok tt, s1) →
  is_Some (groups s !! g)
  ∧ (∃ member, group_members s !! mid = Some member
               ∧ gm_group_id member = g)
  ∧ s1 = set_group_members (λ t, delete mid t) s.
Proof.
  unfold remove_group_member. mrun.
  destruct (groups s !! g); [|done].
  unfold member_in.
  destruct (group_members s !! mid) as [member|] eqn:Hm; [|done].
  destruct (decide (gm_group_id member = g)) as [Hg|]; [|done]. simpl.
  destruct (decide _); [done|].
  destruct (gm_is_admin member); simpl.
  - destruct (decide _); [done|]. intros [= <-]. eauto 10.
  - intros [= <-]. eauto 10.
Qed.

(** X26. On a well formed roster, once remove_group_member has removed a
    row, the user of that row can read neither the group nor its
    history: both requests are answered with code 403 and leave the
    state unchanged. *)
Theorem removed_member_loses_access
    g mid cur s s1 member skip limit order_by :
  roster_ok s →
  group_members s !! mid = Some member →
  remove_group_member g mid cur s = (Ok tt, s1) →
  ∃ detail1 detail2,
    get_group_by_id g (gm_user_id member) s1
    = (Raise (HTTPException 403 detail1), s1)
    ∧ get_group_chat_history g skip limit (gm_user_id member) order_by s1
      = (Raise (HTTPException 403 detail2), s1).
Proof.
  intros [_ Huniq] Hm H.
  apply remove_group_member_Ok in H as ([grp Hg] & (m & Hm' & Hmg) & ->).
  assert (m = member) as -> by congruence.
  assert (Hno : ∀ id row,
            group_members (set_group_members (λ t, delete mid t) s) !! id
            = Some row →
            gm_group_id row = g → gm_user_id row ≠ gm_user_id member).
  { intros id row Hrow Hrg Hru. simpl in Hrow.
    apply lookup_delete_Some in Hrow as [Hne Hrow].
    apply Hne. apply (Huniq mid id member row); congruence. }
  eexists _, _. split.
  - unfold get_group_by_id. mrun. rewrite Hg.
    assert (has_member_row g (gm_user_id member)
              (set_group_members (λ t, delete mid t) s) = false) as ->;
      [|done].
    apply not_true_is_false. intros Ht.
    apply has_member_row_true in Ht as (id & row & Hrow & H1 & H2).
    by destruct (Hno id row).
  - unfold get_group_chat_history. mrun. rewrite Hg.
    assert (is_member_of g (gm_user_id member)
              (set_group_members (λ t, delete mid t) s) = false) as ->;
      [|done].
    apply not_true_is_false. intros Ht.
    apply is_member_of_true in Ht as (id & row & Hrow & H1 & H2).
    by destruct (Hno id row).
Qed.

Lemma removed_member_loses_access_witness :
  ∃ s1 detail,
    remove_group_member "g7" "r8" "alice" Demo2.chess_club = (Ok tt, s1)
    ∧ get_group_chat_history "g7" 0 50 "bob" (merge_sort newest_first) s1
      = (Raise (HTTPException 403 detail), s1).
Proof.
  destruct (remove_group_member "g7" "r8" "alice" Demo2.chess_club)
    as [[[]|e] s1] eqn:Hrm; [|by vm_compute in Hrm].
  destruct (removed_member_loses_access "g7" "r8" "alice" Demo2.chess_club s1
              (mkGroupMember "g7" "bob" false) 0 50 (merge_sort newest_first))
    as (d1 & d2 & _ & H).
  - apply (serve_roster (AddGroupMember "g7" "bob" false "alice" "r8")).
    apply (serve_roster (CreateGroup "chess" "alice" "g7" "r7")).
    apply boot_roster_ok.
  - by vm_compute.
  - exact Hrm.
  - exists s1, d2. split; [done | exact H].
Defined.

(** * Further properties of the code *)

(** ** Frames that store nothing *)

Lemma on_typing_eq user md r v s :
  (d ← subscript md "data"; subscript d "receiver_id") = Ok (JStr r) →
  (d ← subscript md "data"; subscript d "is_typing") = Ok v →
  on_typing user md s
  = send_personal_message (OutTyping user (JStr r) v) r s.
Proof.
  intros Hr Hv. unfold on_typing.
  unfold mbind at 1, M_bind at 1, lift. rewrite Hr.
  unfold mbind at 1, M_bind at 1. by rewrite Hv.
Qed.

Lemma loop_body_typing_frame user md r v env s :
  typing_frame md (JStr r) v →
  loop_body user (Recv (Encodes md)) env s
  = send_personal_message (OutTyping user (JStr r) v) r s.
Proof.
  intros [(ty & Hty & He) [Hr Hv]].
  rewrite (loop_body_typing _ _ _ _ ty) by done. by apply on_typing_eq.
Qed.

(** X1. A frame of type typing with its receiver_id and is_typing fields
    is routed and not stored. Without registry entry for the receiver
    nothing happens; to an entry that takes frames one typing frame
    carrying the sender's id is written, and the session stays open. When
    the registered websocket has been closed by the server the send
    raises and the sender's own connection is closed with code 1008; when
    its client is gone the sender's session ends as on a disconnect of
    its own. *)
Theorem typing_is_routed_not_stored ws user md r v env s :
  typing_frame md (JStr r) v →
  websocket_endpoint_iter ws user (Recv (Encodes md)) env s
  = match active_connections s !! r with
    | None => (Open, s)
    | Some wr =>
        if decide (wr ∈ shut s)
        then (Closed, set_closed (λ l, l ++ [(ws, 1008%Z)]) s)
        else if decide (wr ∈ lost s)
        then websocket_endpoint_iter ws user ClientGone env s
        else (Open,
              set_sent (λ l, l ++ [(wr, OutTyping user (JStr r) v)]) s)
    end.
Proof.
  intros Hf.
  pose proof (loop_body_typing_frame user md r v env s Hf) as Hl.
  rewrite send_personal_message_unfold in Hl.
  destruct (active_connections s !! r) as [wr|]; [|by apply iter_ok].
  rewrite send_json_eq in Hl.
  destruct (decide (wr ∈ shut s)); [by apply (iter_raise _ _ _ _ _ _ _ Hl)|].
  destruct (decide (wr ∈ lost s)); [|by apply iter_ok].
  by rewrite (iter_disconnect _ _ _ _ _ _ Hl).
Qed.

Lemma typing_is_routed_not_stored_witness :
  websocket_endpoint_iter 1 "alice" (Recv (Encodes (Demo2.typing "bob")))
    (mkEnv "" 0) Demo.lobby
  = (Open, set_sent (λ l, l ++ [(2, OutTyping "alice" (JStr "bob") (JBool true))])
             Demo.lobby).
Proof.
  rewrite (typing_is_routed_not_stored 1 "alice" (Demo2.typing "bob") "bob"
             (JBool true) (mkEnv "" 0) Demo.lobby).
  - by vm_compute.
  - split; [exists (JStr "typing"); split; reflexivity|]. split; reflexivity.
Defined.

(** X2. A frame whose type is none of message, typing and read_receipt
    falls through every branch: the state is unchanged, nothing is sent
    and the session stays open. *)
Theorem unknown_frame_type_is_ignored ws user md ty env s :
  subscript md "type" = Ok ty →
  eq_str ty "message" = false →
  eq_str ty "typing" = false →
  eq_str ty "read_receipt" = false →
  websocket_endpoint_iter ws user (Recv (Encodes md)) env s = (Open, s).
Proof.
  intros Hty H1 H2 H3. apply iter_ok.
  unfold loop_body, receive_text. mrun. rewrite Hty. simpl.
  by rewrite H1, H2, H3.
Qed.

Lemma unknown_frame_type_is_ignored_witness :
  websocket_endpoint_iter 1 "alice" (Recv (Encodes Demo2.ping)) (mkEnv "" 0)
    Demo.lobby = (Open, Demo.lobby).
Proof.
  apply (unknown_frame_type_is_ignored 1 "alice" Demo2.ping (JStr "ping"));
    reflexivity.
Defined.

(** X3. A read receipt that names no stored message, or a message that
    can be loaded and whose receiver is not the caller, changes nothing
    and notifies nobody, and the session stays open. One that names a row
    that cannot be loaded ends the session, whoever its receiver is: the
    connection is closed with code 1008 and nothing else changes. *)
Theorem read_receipt_from_non_receiver_is_ignored ws user md id env s :
  read_receipt_frame md id →
  ((∀ m, messages s !! id = Some m →
         loadable m ∧ receiver_id m ≠ Some user) →
   websocket_endpoint_iter ws user (Recv (Encodes md)) env s = (Open, s))
  ∧ (∀ m, messages s !! id = Some m → ¬ loadable m →
       websocket_endpoint_iter ws user (Recv (Encodes md)) env s
       = (Closed, set_closed (λ l, l ++ [(ws, 1008%Z)]) s)).
Proof.
  intros [(ty & Hty & He) Hid]. split.
  - intros Hno. apply iter_ok.
    rewrite (loop_body_read_receipt _ _ _ _ ty) by done.
    by apply (on_read_receipt_skip user md id).
  - intros m Hm Hl. apply (iter_raise _ _ _ _ _ LookupError); [|done].
    rewrite (loop_body_read_receipt _ _ _ _ ty) by done.
    by apply (on_read_receipt_unloadable user md id m).
Qed.

Lemma read_receipt_from_non_receiver_is_ignored_witness :
  websocket_endpoint_iter 2 "bob" (Recv (Encodes (Demo.receipt "m1")))
    (mkEnv "" 6) Demo.chatting = (Open, Demo.chatting).
Proof.
  apply (read_receipt_from_non_receiver_is_ignored 2 "bob"
           (Demo.receipt "m1") "m1").
  - split; [exists (JStr "read_receipt"); split; reflexivity | reflexivity].
  - intros m Hm. vm_compute in Hm. injection Hm as <-.
    split; [by exists TEXT | discriminate].
Defined.

(** X4. Every valid message frame, whatever its target (a receiver, a
    group, neither), whose id is unused: the row is stored with its
    sender, the frame's content, status sent and the value of its
    message type in the type column; no value is a member name, so the
    row cannot be loaded, [db.refresh] raises, nothing is sent to
    anybody, and the sender's connection is closed with code 1008.
    Nothing else changes. *)
Theorem message_frame_is_stored_and_ends_session ws S md mc env s :
  messages s !! uuid4 env = None →
  message_frame md mc →
  let m := new_row S mc env in
  websocket_endpoint_iter ws S (Recv (Encodes md)) env s
  = (Closed,
     set_closed (λ l, l ++ [(ws, 1008%Z)])
       (set_messages (λ t, <[uuid4 env := m]> t) s))
  ∧ status m = SENT
  ∧ sender_id m = S
  ∧ (d ← subscript md "data"; subscript d "content") = Ok (JStr (content m))
  ∧ (∃ t, message_type m = MessageType_value t)
  ∧ ¬ loadable m.
Proof.
  intros Hfresh Hf m. split_and!.
  - by apply iter_message.
  - done.
  - done.
  - destruct Hf as [_ Hmc]. by apply make_MessageCreate_fields in Hmc as [? _].
  - destruct Hf as [_ Hmc]. by apply make_MessageCreate_type in Hmc.
  - destruct Hf as [_ Hmc]. by eapply new_row_not_loadable.
Qed.

Lemma message_frame_is_stored_and_ends_session_witness :
  ∃ s', websocket_endpoint_iter 1 "alice"
          (Recv (Encodes (Demo2.untargeted "memo"))) (mkEnv "m9" 3) Demo.lobby
        = (Closed, s')
        ∧ is_Some (messages s' !! "m9") ∧ sent s' = []
        ∧ closed s' = [(1, 1008%Z)].
Proof.
  eexists. split.
  - apply (message_frame_is_stored_and_ends_session 1 "alice"
             (Demo2.untargeted "memo")
             (mkMessageCreate "memo" "text" None None None) (mkEnv "m9" 3)).
    + reflexivity.
    + split; [exists (JStr "message"); split; reflexivity | reflexivity].
  - split; [|by vm_compute]. simpl. rewrite lookup_insert_eq. eauto.
Defined.

(** X5. A user whose connection the server has closed stays registered: a
    message frame ends the sender's session and leaves the sender's
    registry entry and presence as they were, and a typing frame that
    another user then addresses to the sender raises in that user's loop
    and gets that user's connection closed with code 1008 in turn. *)
Theorem closed_connection_stays_registered
    ws S md mc env wt T md' v env' s :
  active_connections s !! S = Some ws →
  messages s !! uuid4 env = None →
  message_frame md mc →
  typing_frame md' (JStr S) v →
  ∃ s1,
    websocket_endpoint_iter ws S (Recv (Encodes md)) env s = (Closed, s1)
    ∧ active_connections s1 = active_connections s
    ∧ online_users s1 = online_users s
    ∧ websocket_endpoint_iter wt T (Recv (Encodes md')) env' s1
      = (Closed, set_closed (λ l, l ++ [(wt, 1008%Z)]) s1).
Proof.
  intros HS Hfresh Hf Ht. eexists. split; [by apply iter_message|].
  split_and!; [done..|].
  apply (iter_raise _ _ _ _ _ RuntimeError); [|done].
  rewrite (loop_body_typing_frame T md' S v env') by done.
  rewrite send_personal_message_unfold. simpl. rewrite HS.
  apply send_json_shut.
  unfold shut. simpl. rewrite fmap_app. apply elem_of_app. right.
  by apply list_elem_of_singleton.
Qed.

Lemma closed_connection_stays_registered_witness :
  ∃ s1,
    websocket_endpoint_iter 1 "alice"
      (Recv (Encodes (Demo.direct "hi" "bob"))) (mkEnv "m1" 10) Demo.lobby
    = (Closed, s1)
    ∧ active_connections s1 !! "alice" = Some 1
    ∧ websocket_endpoint_iter 2 "bob"
        (Recv (Encodes (Demo2.typing "alice"))) (mkEnv "" 11) s1
      = (Closed, set_closed (λ l, l ++ [(2, 1008%Z)]) s1).
Proof.
  destruct (closed_connection_stays_registered 1 "alice"
              (Demo.direct "hi" "bob")
              (mkMessageCreate "hi" "text" None (Some "bob") None)
              (mkEnv "m1" 10) 2 "bob" (Demo2.typing "alice") (JBool true)
              (mkEnv "" 11) Demo.lobby) as (s1 & H1 & Hc & _ & H2).
  - reflexivity.
  - reflexivity.
  - split; [exists (JStr "message"); split; reflexivity | reflexivity].
  - split; [exists (JStr "typing"); split; reflexivity|]. split; reflexivity.
  - exists s1. split; [exact H1|]. split; [|exact H2]. by rewrite Hc.
Defined.

(** ** Entering *)

Lemma get_current_user_reject payload s :
  (∀ u, payload = Some (Some u) → u ∉ users s) →
  get_current_user payload s
  = (Raise (HTTPException 401 "Could not validate credentials"), s).
Proof.
  intros H. unfold get_current_user. destruct payload as [[u|]|]; [|done..].
  mrun. rewrite bool_decide_eq_false_2; [done|]. by apply H.
Qed.

Lemma get_current_user_accept u s :
  u ∈ users s → get_current_user (Some (Some u)) s = (Ok u, s).
Proof. intros H. unfold get_current_user. mrun. by rewrite bool_decide_eq_true_2. Qed.

(** X6. A connection whose token does not yield a known user is closed
    with code 1008; no registry entry, presence entry or session is
    written. *)
Theorem enter_rejects_unknown_token ws payload s :
  (∀ u, payload = Some (Some u) → u ∉ users s) →
  websocket_endpoint_enter ws payload s
  = (Closed, set_closed (λ l, l ++ [(ws, 1008%Z)]) s).
Proof.
  intros H. unfold websocket_endpoint_enter.
  unfold mbind at 1, M_bind at 1. by rewrite get_current_user_reject.
Qed.

Lemma enter_rejects_unknown_token_witness :
  websocket_endpoint_enter 7 (Demo.token "mallory") Demo.lobby
  = (Closed, set_closed (λ l, l ++ [(7, 1008%Z)]) Demo.lobby).
Proof.
  apply enter_rejects_unknown_token. intros u [= <-].
  apply (bool_decide_unpack _). vm_compute. exact I.
Defined.

(** X7. A connection whose token yields the known user u: with Redis
    reachable the websocket is registered for u, u is marked online and
    the session is open; with Redis unreachable the registry entry is
    written all the same, u is not marked online, and the connection is
    closed with code 1008. *)
Theorem enter_registers ws u s :
  u ∈ users s →
  websocket_endpoint_enter ws (Some (Some u)) s
  = if redis_up s
    then (Open,
          set_sessions (λ t, <[ws := u]> t)
            (set_online_users (λ o, {[u]} ∪ o)
               (set_active_connections (λ c, <[u := ws]> c) s)))
    else (Closed,
          set_closed (λ l, l ++ [(ws, 1008%Z)])
            (set_active_connections (λ c, <[u := ws]> c) s)).
Proof.
  intros Hu. unfold websocket_endpoint_enter.
  unfold mbind at 1, M_bind at 1. rewrite get_current_user_accept by done.
  unfold mbind at 1, M_bind at 1.
  destruct (redis_up s) eqn:Hup.
  - by rewrite connect_eq.
  - by rewrite connect_redis_down.
Qed.

Lemma enter_registers_witness :
  ∃ s', websocket_endpoint_enter 1 (Demo.token "alice") Demo2.cold = (Closed, s')
        ∧ active_connections s' !! "alice" = Some 1
        ∧ elements (online_users s') = []
        ∧ closed s' = [(1, 1008%Z)].
Proof.
  eexists. split.
  - unfold Demo.token.
    rewrite (enter_registers 1 "alice" Demo2.cold); [reflexivity|].
    apply (bool_decide_unpack _). vm_compute. exact I.
  - repeat split; reflexivity.
Defined.

(** ** Registry operations compose *)

(** X8. Two connects for one user, Redis reachable: the registry holds
    the second websocket, the first is not closed, the user is online,
    and a personal message then goes to the second websocket only: it is
    the send on that websocket, which logs the message when the
    websocket can be written to. *)
Theorem last_connect_wins ws1 ws2 u message s :
  redis_up s = true →
  ∃ s2,
    (connect ws1 u ≫= λ _, connect ws2 u) s = (Ok tt, s2)
    ∧ active_connections s2 = <[u := ws2]> (active_connections s)
    ∧ online_users s2 = {[u]} ∪ online_users s
    ∧ closed s2 = closed s
    ∧ send_personal_message message u s2 = send_json ws2 message s2
    ∧ (usable ws2 s →
       send_personal_message message u s2
       = (Ok tt, set_sent (λ l, l ++ [(ws2, message)]) s2)).
Proof.
  intros Hup. eexists. split.
  - unfold mbind, M_bind. rewrite connect_eq by done.
    rewrite connect_eq by done. reflexivity.
  - simpl. split_and!; try done.
    + by rewrite insert_insert_eq.
    + apply set_eq. intros x. rewrite !elem_of_union. tauto.
    + rewrite send_personal_message_unfold. simpl.
      by rewrite lookup_insert_eq.
    + intros Hus. rewrite send_personal_message_unfold. simpl.
      rewrite lookup_insert_eq. by apply send_json_usable.
Qed.

Lemma last_connect_wins_witness :
  ∃ s2,
    (connect 1 "alice" ≫= λ _, connect 2 "alice") Demo.fresh = (Ok tt, s2)
    ∧ active_connections s2 !! "alice" = Some 2.
Proof.
  destruct (last_connect_wins 1 2 "alice" (OutReadReceipt JNull "") Demo.fresh)
    as (s2 & H & Hc & _); [reflexivity|].
  exists s2. split; [exact H|]. rewrite Hc. apply lookup_insert_eq.
Defined.

(** X9. For a user with no registry entry and not marked online, Redis
    reachable, connect followed by disconnect restores the state. *)
Theorem connect_disconnect_round_trip ws u s :
  redis_up s = true →
  active_connections s !! u = None →
  u ∉ online_users s →
  (connect ws u ≫= λ _, disconnect u) s = (Ok tt, s).
Proof.
  intros Hup Hc Ho. unfold mbind, M_bind. rewrite connect_eq by done.
  rewrite disconnect_eq by done. f_equal.
  destruct s; unfold set_online_users, set_active_connections; simpl in *.
  f_equal.
  - by apply delete_insert_id.
  - apply set_eq. intros x.
    rewrite elem_of_difference, elem_of_union, elem_of_singleton.
    intuition congruence.
Qed.

Lemma connect_disconnect_round_trip_witness :
  (connect 3 "carol" ≫= λ _, disconnect "carol") Demo.lobby
  = (Ok tt, Demo.lobby).
Proof.
  apply connect_disconnect_round_trip.
  - reflexivity.
  - reflexivity.
  - apply (bool_decide_unpack _). vm_compute. exact I.
Defined.

(** ** Broadcast *)






(** ** Frames and presence *)

Lemma loop_body_closed user inp env :
  keeps (λ s s', closed s' = closed s) (loop_body user inp env).
Proof.
  assert (PreOrder (λ s s' : State, closed s' = closed s)).
  { split; [by intros ? | intros ? ? ? H1 H2; congruence]. }
  unfold loop_body, receive_text, on_message, on_typing, on_read_receipt,
    send_personal_message_dyn, query_message, db_add_message, load,
    db_set_status, is_user_online, get_redis_client,
    send_personal_message, send_json.
  repeat keeps_step.
Qed.

(** X11. Whatever text a received frame holds, handling it leaves every
    other user's registry entry and presence as they were. While the
    session stays open nothing of registry, presence and closed
    connections changes. When the session ends on the frame, either the
    connection is closed with code 1008 and registry and presence are as
    before, or (a send in the loop found its client gone) the session's
    own user is unregistered: with Redis reachable the user is also
    marked offline and nothing is closed; with Redis unreachable the
    presence set stays and the connection is closed with code 1008. *)
Theorem frames_touch_own_presence_only ws user data env s :
  ∃ st s',
    websocket_endpoint_iter ws user (Recv data) env s = (st, s')
    ∧ (∀ u, u ≠ user →
         active_connections s' !! u = active_connections s !! u
         ∧ (u ∈ online_users s' ↔ u ∈ online_users s))
    ∧ (st = Open →
         active_connections s' = active_connections s
         ∧ online_users s' = online_users s
         ∧ closed s' = closed s)
    ∧ (st = Closed →
         (active_connections s' = active_connections s
          ∧ online_users s' = online_users s
          ∧ closed s' = closed s ++ [(ws, 1008%Z)])
         ∨ (active_connections s' = delete user (active_connections s)
            ∧ if redis_up s
              then online_users s' = online_users s ∖ {[user]}
                   ∧ closed s' = closed s
              else online_users s' = online_users s
                   ∧ closed s' = closed s ++ [(ws, 1008%Z)])).
Proof.
  unfold websocket_endpoint_iter.
  pose proof (loop_body_presence user (Recv data) env s) as (Hc & Ho & Hr).
  pose proof (loop_body_closed user (Recv data) env s) as Hlog.
  destruct (loop_body user (Recv data) env s) as [[[]|e] s1]; simpl in *.
  { exists Open, s1. split_and!; [done| |done|done].
    intros u _. by rewrite Hc, Ho. }
  assert (Hother : e ≠ WebSocketDisconnect →
    ∃ st s', (match e with
              | WebSocketDisconnect =>
                  match disconnect user s1 with
                  | (Ok _, s2) => (Closed, s2)
                  | (Raise _, s2) => (Closed, (close ws 1008 s2).2)
                  end
              | _ => (Closed, (close ws 1008 s1).2)
              end) = (st, s')
      ∧ st = Closed
      ∧ active_connections s' = active_connections s
      ∧ online_users s' = online_users s
      ∧ closed s' = closed s ++ [(ws, 1008%Z)]).
  { intros Hne. exists Closed, (close ws 1008 s1).2.
    split; [by destruct e|]. simpl. by rewrite Hlog. }
  assert (e = WebSocketDisconnect ∨ e ≠ WebSocketDisconnect) as [->|Hne]
    by (destruct e; first [by left | by right]).
  - destruct (redis_up s) eqn:Hup.
    + rewrite disconnect_eq by congruence.
      eexists Closed, _. split; [done|]. simpl. rewrite Hc, Ho, Hlog.
      split_and!; [|done|].
      * intros u Hu. rewrite lookup_delete_ne by done. split; [done|].
        rewrite elem_of_difference, elem_of_singleton. tauto.
      * intros _. by right.
    + rewrite disconnect_redis_down by congruence.
      eexists Closed, _. split; [done|]. simpl. rewrite Hc, Ho, Hlog.
      split_and!; [|done|].
      * intros u Hu. by rewrite lookup_delete_ne.
      * intros _. by right.
  - destruct (Hother Hne) as (st & s' & Heq & -> & Hc' & Ho' & Hlog').
    exists Closed, s'. split; [done|]. split_and!; [|done|].
    + intros u _. by rewrite Hc', Ho'.
    + intros _. by left.
Qed.

(** ** The presence set as a list of users *)

(** X12. In every state reached from a fresh process by any sequence of
    events during which Redis stays reachable and the process is not
    restarted, get_online_users returns the set of the users that have a
    registry entry. *)
Theorem get_online_users_lists_registry us ms gs gms evs :
  Forall calm evs →
  let s := run evs (boot us ms gs gms) in
  get_online_users s = (Ok (dom (active_connections s)), s).
Proof.
  intros Hcalm s.
  destruct (run_presence_inv evs _ Hcalm (boot_presence_inv us ms gs gms))
    as [Hup Hcons]. fold s in Hup, Hcons.
  unfold get_online_users, get_redis_client. mrun. rewrite Hup. simpl.
  do 2 f_equal. apply set_eq. intros u. rewrite elem_of_dom. apply Hcons.
Qed.

Lemma get_online_users_lists_registry_witness :
  get_online_users Demo.lobby
  = (Ok (dom (active_connections Demo.lobby)), Demo.lobby).
Proof.
  apply (get_online_users_lists_registry Demo.people ∅ Demo.club Demo.roster
           [Enter 1 (Demo.token "alice"); Enter 2 (Demo.token "bob")]).
  repeat constructor.
Defined.

(** ** What a history fetch returns *)

Lemma conversation_between a b s id m :
  (id, m) ∈ conversation a b s → between a b m ∧ messages s !! id = Some m.
Proof.
  unfold conversation. rewrite list_elem_of_filter.
  intros [H1 H2]. split; [done|]. by apply elem_of_map_to_list.
Qed.

Lemma shown_created cur x : created_at (shown cur x).2 = created_at x.2.
Proof. unfold shown. by destruct (decide _). Qed.

(** X13. A history fetch whose parameters can be bound, on rows the
    database orders newest first: when every row of the page can be
    loaded the fetch returns at most limit rows (any number for a
    negative limit) and at most the conversation's length less skip,
    newest first, each a message between the two users as it is stored
    after the fetch, read if the caller is its receiver, together with
    the count of the whole conversation before paging; when some row of
    the page cannot be loaded the fetch ends in LookupError and changes
    nothing. A parameter that cannot be bound ends it in OverflowError. *)
Theorem history_result_shape U skip limit C order_by s :
  newest_first_order order_by →
  let fetched := page skip limit (order_by (conversation C U s)) in
  (int64 skip → int64 limit → all_loadable fetched →
   ∃ rows s',
     get_chat_history U skip limit C order_by s
     = (Ok (rows, length (conversation C U s)), s')
     ∧ ((0 ≤ limit)%Z → (Z.of_nat (length rows) ≤ limit)%Z)
     ∧ length rows ≤ length (conversation C U s) - Z.to_nat skip
     ∧ StronglySorted newest_first rows
     ∧ ∀ id m, (id, m) ∈ rows →
         between C U m
         ∧ messages s' !! id = Some m
         ∧ (receiver_id m = Some C → status m = READ))
  ∧ (int64 skip → int64 limit → ¬ all_loadable fetched →
     get_chat_history U skip limit C order_by s = (Raise LookupError, s))
  ∧ (¬ (int64 skip ∧ int64 limit) →
     get_chat_history U skip limit C order_by s = (Raise OverflowError, s)).
Proof.
  intros Hord fetched. split_and!.
  - intros Hsk Hli Hload.
    pose proof (get_chat_history_eq U skip limit C order_by s Hsk Hli) as Heq.
    cbv zeta in Heq. fold fetched in Heq. rewrite decide_True in Heq by done.
    eexists _, _. split; [exact Heq|].
    rewrite length_fmap.
    destruct (page_length skip limit (order_by (conversation C U s)))
      as [H1 H2]. fold fetched in H1, H2.
    assert (Hlen : length (order_by (conversation C U s))
                   = length (conversation C U s)).
    { apply Permutation_length, Hord. }
    split_and!.
    + intros H0. specialize (H1 H0). lia.
    + lia.
    + eapply StronglySorted_fmap; [|apply page_sorted, Hord].
      intros x y. unfold newest_first. by rewrite !shown_created.
    + intros id m Hin.
      apply list_elem_of_fmap in Hin as ([id0 m0] & Heq' & Hin).
      pose proof Hin as Hrow.
      apply (fetched_subseteq _ _ _ _ Hord) in Hrow.
      apply conversation_between in Hrow as [Hbtw Hm0]. simpl.
      unfold shown in Heq'. simpl in Heq'.
      destruct (decide (unread_by C m0)) as [Hun|Hun]; injection Heq' as -> ->.
      * split_and!; [done| |done].
        rewrite (foldl_mark_hit C _ _ id0 m0) by done. by rewrite Hm0.
      * split_and!; [done| |].
        -- rewrite foldl_mark_miss; [done|]. intros m' Hin'.
           apply (page_row _ _ _ _ _ _ _ _ Hord) in Hin'. congruence.
        -- intros Hr. destruct (decide (status m0 = READ)); [done|].
           destruct Hun. by split.
  - intros Hsk Hli Hload.
    pose proof (get_chat_history_eq U skip limit C order_by s Hsk Hli) as Heq.
    cbv zeta in Heq. fold fetched in Heq. by rewrite decide_False in Heq.
  - apply get_chat_history_overflow.
Qed.

Lemma history_result_shape_witness :
  ∃ rows s',
    get_chat_history "bob" 0 1 "alice" (merge_sort newest_first) Demo.mailbox
    = (Ok (rows, 2), s')
    ∧ length rows ≤ 1
    ∧ StronglySorted newest_first rows.
Proof.
  assert (H0 : int64 0) by (by vm_compute).
  assert (H1 : int64 1) by (by vm_compute).
  destruct (history_result_shape "bob" 0 1 "alice" (merge_sort newest_first)
              Demo.mailbox merge_sort_order) as (Hok & _ & _).
  destruct (Hok H0 H1) as (rows & s' & Hrun & Hlim & _ & Hsorted & _).
  - apply (bool_decide_unpack _). by vm_compute.
  - exists rows, s'. split; [exact Hrun|]. split; [|exact Hsorted].
    assert (Z.of_nat (length rows) ≤ 1)%Z by (apply Hlim; lia). lia.
Defined.

Lemma get_chat_history_total u skip limit cur order_by s :
  (∃ rows s',
     get_chat_history u skip limit cur order_by s
     = (Ok (rows, length (conversation cur u s)), s'))
  ∨ ∃ e, get_chat_history u skip limit cur order_by s = (Raise e, s).
Proof.
  destruct (decide (int64 skip ∧ int64 limit)) as [[Hs Hl]|Hno].
  - pose proof (get_chat_history_eq u skip limit cur order_by s Hs Hl) as Heq.
    cbv zeta in Heq. rewrite Heq. case_decide; eauto.
  - right. eexists. by apply get_chat_history_overflow.
Qed.

Lemma conversation_sym a b s : conversation a b s = conversation b a s.
Proof.
  unfold conversation. apply list_filter_iff. intros [id m]. simpl.
  unfold between. tauto.
Qed.

(** X14. The total of a history fetch does not depend on the side that
    asks nor on skip and limit. Whatever the parameters, a fetch by
    either user of a conversation returns the count of the whole
    conversation as its total, or raises and leaves the state as it was;
    when the parameters can be bound and the rows of both pages can be
    loaded, both fetches return, with the same total. *)
Theorem history_total_symmetric U C skip1 limit1 skip2 limit2 ord1 ord2 s :
  ((∃ rows1 s1,
      get_chat_history U skip1 limit1 C ord1 s
      = (Ok (rows1, length (conversation C U s)), s1))
   ∨ ∃ e, get_chat_history U skip1 limit1 C ord1 s = (Raise e, s))
  ∧ ((∃ rows2 s2,
        get_chat_history C skip2 limit2 U ord2 s
        = (Ok (rows2, length (conversation C U s)), s2))
     ∨ ∃ e, get_chat_history C skip2 limit2 U ord2 s = (Raise e, s))
  ∧ (int64 skip1 → int64 limit1 → int64 skip2 → int64 limit2 →
     all_loadable (page skip1 limit1 (ord1 (conversation C U s))) →
     all_loadable (page skip2 limit2 (ord2 (conversation U C s))) →
     ∃ rows1 rows2 total s1 s2,
       get_chat_history U skip1 limit1 C ord1 s = (Ok (rows1, total), s1)
       ∧ get_chat_history C skip2 limit2 U ord2 s = (Ok (rows2, total), s2)
       ∧ total = length (conversation C U s)).
Proof.
  split_and!.
  - apply get_chat_history_total.
  - rewrite (conversation_sym C U). apply get_chat_history_total.
  - intros Hs1 Hl1 Hs2 Hl2 Hload1 Hload2.
    pose proof (get_chat_history_eq U skip1 limit1 C ord1 s Hs1 Hl1) as H1.
    pose proof (get_chat_history_eq C skip2 limit2 U ord2 s Hs2 Hl2) as H2.
    cbv zeta in H1, H2.
    rewrite decide_True in H1 by done. rewrite decide_True in H2 by done.
    rewrite (conversation_sym U C) in H2 at 2.
    eexists _, _, _, _, _. split; [exact H1|]. split; [exact H2|done].
Qed.

Lemma history_total_symmetric_witness :
  ∃ rows1 rows2 s1 s2,
    get_chat_history "bob" 0 1 "alice" (merge_sort newest_first) Demo.mailbox
    = (Ok (rows1, 2), s1)
    ∧ get_chat_history "alice" 5 (-1) "bob" (merge_sort newest_first)
        Demo.mailbox
      = (Ok (rows2, 2), s2).
Proof.
  assert (H0 : int64 0) by (by vm_compute).
  assert (H1 : int64 1) by (by vm_compute).
  assert (H5 : int64 5) by (by vm_compute).
  assert (Hm : int64 (-1)) by (by vm_compute).
  destruct (history_total_symmetric "bob" "alice" 0 1 5 (-1)
              (merge_sort newest_first) (merge_sort newest_first)
              Demo.mailbox) as (_ & _ & H).
  destruct H as (rows1 & rows2 & total & s1 & s2 & Ha & Hb & Ht);
    [done | done | done | done | | |].
  - apply (bool_decide_unpack _). by vm_compute.
  - apply (bool_decide_unpack _). by vm_compute.
  - exists rows1, rows2, s1, s2.
    assert (Hlen : total = 2) by (rewrite Ht; by vm_compute).
    rewrite <- Hlen. by split.
Defined.

(** ** A message written over the websocket, seen by later requests *)

Lemma rows_insert (P : string * Message → Prop) `{!∀ x, Decision (P x)}
    (t : gmap string Message) id m :
  t !! id = None → P (id, m) →
  filter P (map_to_list (<[id := m]> t)) ≡ₚ (id, m) :: filter P (map_to_list t).
Proof.
  intros Hfresh HP. rewrite map_to_list_insert by done.
  by rewrite filter_cons_True.
Qed.

(** A page that holds a row that cannot be loaded. *)
Lemma page_not_loadable (rows : list (string * Message)) id m :
  (id, m) ∈ rows → ¬ loadable m → ¬ all_loadable rows.
Proof.
  intros Hin Hl Hall. apply Hl.
  unfold all_loadable in Hall. rewrite Forall_forall in Hall.
  by apply (Hall (id, m)).
Qed.

(** Without offset and with room for one more row, the page holds the
    new row, wherever the database puts it. *)
Lemma page_holds_new_row skip limit order_by
    (old rows : list (string * Message)) x :
  newest_first_order order_by →
  rows ≡ₚ x :: old →
  (skip ≤ 0)%Z → (limit < 0 ∨ Z.of_nat (length old) < limit)%Z →
  x ∈ page skip limit (order_by rows).
Proof.
  intros Ho Hperm Hs Hl. destruct (Ho rows) as [Hp _].
  rewrite page_all; [| done |].
  - rewrite Hp, Hperm. by left.
  - rewrite Hp, Hperm. simpl. lia.
Qed.

(** X17. A valid message frame with an unused id ends the sender's
    session and leaves its row stored. From then on the row cannot be
    acknowledged: a read receipt that names it, from whomever, ends that
    session too with code 1008. And it cannot be fetched: for two users
    the row is between, a history fetch whose page holds the row ends in
    LookupError and changes nothing; without offset, and with no limit or
    a limit above the number of their earlier messages, the page does
    hold it. *)
Theorem websocket_message_cannot_be_fetched ws S md mc env s :
  messages s !! uuid4 env = None →
  message_frame md mc →
  let m := new_row S mc env in
  ∃ s1,
    websocket_endpoint_iter ws S (Recv (Encodes md)) env s = (Closed, s1)
    ∧ messages s1 !! uuid4 env = Some m
    ∧ (∀ wr user rd env',
         read_receipt_frame rd (uuid4 env) →
         websocket_endpoint_iter wr user (Recv (Encodes rd)) env' s1
         = (Closed, set_closed (λ l, l ++ [(wr, 1008%Z)]) s1))
    ∧ (∀ C U skip limit order_by,
         between C U m → newest_first_order order_by →
         int64 skip → int64 limit →
         ((uuid4 env, m) ∈ page skip limit (order_by (conversation C U s1)) →
          get_chat_history U skip limit C order_by s1
          = (Raise LookupError, s1))
         ∧ ((skip ≤ 0)%Z →
            (limit < 0 ∨ Z.of_nat (length (conversation C U s)) < limit)%Z →
            get_chat_history U skip limit C order_by s1
            = (Raise LookupError, s1))).
Proof.
  intros Hfresh Hf m. eexists. split; [by apply iter_message|].
  fold m.
  set (s1 := set_closed _ _).
  assert (Hm : messages s1 !! uuid4 env = Some m) by apply lookup_insert_eq.
  assert (Hl : ¬ loadable m)
    by (destruct Hf as [_ Hmc]; by eapply new_row_not_loadable).
  split; [done|]. split.
  - intros wr user rd env' [(ty & Hty & He) Hid].
    apply (iter_raise _ _ _ _ _ LookupError); [|done].
    rewrite (loop_body_read_receipt _ _ _ _ ty) by done.
    by apply (on_read_receipt_unloadable user rd (uuid4 env) m).
  - intros C U skip limit order_by Hb Ho Hsk Hli.
    assert (Hpage :
      (uuid4 env, m) ∈ page skip limit (order_by (conversation C U s1)) →
      get_chat_history U skip limit C order_by s1 = (Raise LookupError, s1)).
    { intros Hin.
      pose proof (get_chat_history_eq U skip limit C order_by s1 Hsk Hli) as Heq.
      cbv zeta in Heq. rewrite decide_False in Heq; [done|].
      by apply (page_not_loadable _ (uuid4 env) m). }
    split; [done|]. intros Hs Hlim. apply Hpage.
    apply (page_holds_new_row _ _ _ (conversation C U s)); [done| |done|done].
    unfold conversation. by apply (rows_insert (λ kv, between C U kv.2)).
Qed.

Lemma websocket_message_cannot_be_fetched_witness :
  ∃ s1,
    websocket_endpoint_iter 1 "alice"
      (Recv (Encodes (Demo.direct "hi" "bob"))) (mkEnv "m1" 10) Demo.lobby
    = (Closed, s1)
    ∧ get_chat_history "alice" 0 50 "bob" (merge_sort newest_first) s1
      = (Raise LookupError, s1)
    ∧ websocket_endpoint_iter 2 "bob"
        (Recv (Encodes (Demo.receipt "m1"))) (mkEnv "" 11) s1
      = (Closed, set_closed (λ l, l ++ [(2, 1008%Z)]) s1).
Proof.
  assert (H0 : int64 0) by (by vm_compute).
  assert (H50 : int64 50) by (by vm_compute).
  destruct (websocket_message_cannot_be_fetched 1 "alice"
              (Demo.direct "hi" "bob")
              (mkMessageCreate "hi" "text" None (Some "bob") None)
              (mkEnv "m1" 10) Demo.lobby) as (s1 & H1 & _ & Hr & Hh).
  - reflexivity.
  - split; [exists (JStr "message"); split; reflexivity | reflexivity].
  - exists s1. split; [exact H1|]. split.
    + apply (Hh "bob" "alice" 0%Z 50%Z (merge_sort newest_first));
        [by right | apply merge_sort_order | exact H0 | exact H50 | lia |].
      right. by vm_compute.
    + apply Hr.
      split; [exists (JStr "read_receipt"); split; reflexivity | reflexivity].
Defined.

(** X18. A valid message frame with an unused id that names group g ends
    the sender's session and leaves its row stored. From then on a
    member's fetch of the history of g whose page holds the row ends in
    LookupError and changes nothing; without offset, and with no limit or
    a limit above the number of the group's earlier messages, the page
    does hold it. *)
Theorem websocket_group_message_cannot_be_fetched
    ws S g grp md mc env mid row s :
  messages s !! uuid4 env = None →
  message_frame md mc →
  mc_group_id mc = Some g →
  groups s !! g = Some grp →
  group_members s !! mid = Some row →
  gm_group_id row = g →
  let m := new_row S mc env in
  ∃ s1,
    websocket_endpoint_iter ws S (Recv (Encodes md)) env s = (Closed, s1)
    ∧ messages s1 !! uuid4 env = Some m
    ∧ (∀ skip limit order_by,
         newest_first_order order_by → int64 skip → int64 limit →
         ((uuid4 env, m) ∈ page skip limit (order_by (group_rows g s1)) →
          get_group_chat_history g skip limit (gm_user_id row) order_by s1
          = (Raise LookupError, s1))
         ∧ ((skip ≤ 0)%Z →
            (limit < 0 ∨ Z.of_nat (length (group_rows g s)) < limit)%Z →
            get_group_chat_history g skip limit (gm_user_id row) order_by s1
            = (Raise LookupError, s1))).
Proof.
  intros Hfresh Hf Hgid Hg Hrow Hrg m. eexists.
  split; [by apply iter_message|]. fold m.
  set (s1 := set_closed _ _).
  assert (Hm : messages s1 !! uuid4 env = Some m) by apply lookup_insert_eq.
  assert (Hl : ¬ loadable m)
    by (destruct Hf as [_ Hmc]; by eapply new_row_not_loadable).
  split; [done|].
  intros skip limit order_by Ho Hsk Hli.
  assert (Hpage :
    (uuid4 env, m) ∈ page skip limit (order_by (group_rows g s1)) →
    get_group_chat_history g skip limit (gm_user_id row) order_by s1
    = (Raise LookupError, s1)).
  { intros Hin.
    rewrite (get_group_chat_history_member g grp skip limit (gm_user_id row)
               order_by mid row s1) by done.
    rewrite decide_False; [done|].
    by apply (page_not_loadable _ (uuid4 env) m). }
  split; [done|]. intros Hs Hlim. apply Hpage.
  apply (page_holds_new_row _ _ _ (group_rows g s)); [done| |done|done].
  unfold group_rows.
  by apply (rows_insert (λ kv, group_id kv.2 = Some g)).
Qed.

Lemma websocket_group_message_cannot_be_fetched_witness :
  ∃ s1,
    websocket_endpoint_iter 1 "alice"
      (Recv (Encodes (Demo.to_group "hi" "g1"))) (mkEnv "m1" 10) Demo.lobby
    = (Closed, s1)
    ∧ get_group_chat_history "g1" 0 50 "bob" (merge_sort newest_first) s1
      = (Raise LookupError, s1).
Proof.
  assert (H0 : int64 0) by (by vm_compute).
  assert (H50 : int64 50) by (by vm_compute).
  destruct (websocket_group_message_cannot_be_fetched 1 "alice" "g1"
              (mkGroup "club" "alice") (Demo.to_group "hi" "g1")
              (mkMessageCreate "hi" "text" None None (Some "g1"))
              (mkEnv "m1" 10) "r2" (mkGroupMember "g1" "bob" false)
              Demo.lobby) as (s1 & H1 & _ & Hh).
  - reflexivity.
  - split; [exists (JStr "message"); split; reflexivity | reflexivity].
  - reflexivity.
  - reflexivity.
  - reflexivity.
  - reflexivity.
  - exists s1. split; [exact H1|].
    apply (Hh 0%Z 50%Z (merge_sort newest_first));
      [apply merge_sort_order | exact H0 | exact H50 | lia |].
    right. by vm_compute.
Defined.

(** ** One-time passwords *)

Lemma otp_key_inj u v : otp_key u = otp_key v → u = v.
Proof. unfold otp_key. cbn. intros [= H]. exact H. Qed.

(** X27. With Redis reachable, store_otp succeeds, and get_otp for that
    user returns the stored code for as long as no more than
    OTP_EXPIRY_SECONDS (120 s) have passed, the 120 000th millisecond
    included, nothing afterwards; an earlier code of the user is
    replaced, and what get_otp returns for any other user is
    unaffected. *)
Theorem otp_round_trip_until_expiry u otp ms r :
  reachable r = true →
  ∃ r1,
    store_otp u otp r = (Ok true, r1)
    ∧ (get_otp u (elapse ms r1)).1
      = Ok (if bool_decide (ms ≤ OTP_EXPIRY_SECONDS * 1000)%Z
            then Some otp else None)
    ∧ ∀ v, v ≠ u →
        (get_otp v (elapse ms r1)).1 = (get_otp v (elapse ms r)).1.
Proof.
  intros Hr. unfold store_otp. rewrite Hr. eexists. split; [done|]. split.
  - unfold get_otp, elapse. simpl. rewrite lookup_insert_eq.
    f_equal.
    rewrite (bool_decide_ext _ (ms ≤ OTP_EXPIRY_SECONDS * 1000)%Z); [done|lia].
  - intros v Hne. unfold get_otp, elapse. simpl. rewrite Hr.
    rewrite lookup_insert_ne; [done|]. intros H. by apply otp_key_inj in H.
Qed.

Lemma otp_round_trip_until_expiry_witness :
  (get_otp "alice" (elapse 120000 (store_otp "alice" "4711" Demo2.idle).2)).1
  = Ok (Some "4711")
  ∧ (get_otp "alice" (elapse 120001 (store_otp "alice" "4711" Demo2.idle).2)).1
    = Ok None.
Proof.
  destruct (otp_round_trip_until_expiry "alice" "4711" 120000 Demo2.idle)
    as (r1 & Hs1 & Hg1 & _); [done|].
  destruct (otp_round_trip_until_expiry "alice" "4711" 120001 Demo2.idle)
    as (r2 & Hs2 & Hg2 & _); [done|].
  rewrite Hs1 at 1. rewrite Hs2. simpl. by rewrite Hg1, Hg2.
Defined.

(** X28. With Redis reachable, after delete_otp for a user get_otp
    returns nothing for that user; what it returns for any other user
    is unaffected. *)
Theorem otp_is_gone_after_delete u r :
  reachable r = true →
  ∃ r1,
    delete_otp u r = (Ok true, r1)
    ∧ get_otp u r1 = (Ok None, r1)
    ∧ ∀ v, v ≠ u → (get_otp v r1).1 = (get_otp v r).1.
Proof.
  intros Hr. unfold delete_otp. rewrite Hr. eexists. split; [done|]. split.
  - unfold get_otp. simpl. by rewrite lookup_delete_eq.
  - intros v Hne. unfold get_otp. simpl. rewrite Hr.
    rewrite lookup_delete_ne; [done|]. intros H. by apply otp_key_inj in H.
Qed.

Lemma otp_is_gone_after_delete_witness :
  (get_otp "alice"
     (delete_otp "alice" (store_otp "alice" "4711" Demo2.idle).2).2).1
  = Ok None.
Proof.
  destruct (otp_is_gone_after_delete "alice"
              (store_otp "alice" "4711" Demo2.idle).2)
    as (r1 & Hd & Hg & _); [done|].
  rewrite Hd. simpl. by rewrite Hg.
Defined.

(** ** The in-memory fallback *)


Section cleaning.
Context {Time : Type} (later : Time → Time → bool).

Lemma drop_key_eq (d : gmap string string * gmap string Time) k :
  drop_key d k = (delete k d.1, delete k d.2).
Proof.
  unfold drop_key. f_equal; case_decide as H; try done.
  - symmetry. apply delete_id. by apply eq_None_not_Some.
  - symmetry. apply delete_id. by apply eq_None_not_Some.
Qed.

Lemma foldl_drop_key ks : ∀ (d : gmap string string * gmap string Time) k,
  (foldl drop_key d ks).1 !! k = (if decide (k ∈ ks) then None else d.1 !! k)
  ∧ (foldl drop_key d ks).2 !! k = (if decide (k ∈ ks) then None else d.2 !! k).
Proof.
  induction ks as [|k0 ks IH]; intros d k; simpl.
  - destruct (decide (k ∈ [])) as [H|H]; [|done].
    by apply not_elem_of_nil in H.
  - destruct (IH (drop_key d k0) k) as [H1 H2]. rewrite H1, H2.
    rewrite drop_key_eq. simpl.
    destruct (decide (k ∈ ks)) as [Hin|Hin];
      destruct (decide (k ∈ k0 :: ks)) as [Hin'|Hin']; try done.
    + destruct Hin'. by right.
    + apply elem_of_cons in Hin' as [->|?]; [|done].
      by rewrite !lookup_delete_eq.
    + rewrite !lookup_delete_ne; [done|..]; intros <-; apply Hin'; by left.
Qed.

Lemma elem_of_expired_keys t (e : gmap string Time) k :
  k ∈ expired_keys later t e ↔ ∃ x, e !! k = Some x ∧ later t x = true.
Proof.
  unfold expired_keys. rewrite list_elem_of_fmap. split.
  - intros ([k' x] & -> & H). apply list_elem_of_filter in H as [Hl H].
    apply elem_of_map_to_list in H. eauto.
  - intros (x & H & Hl). exists (k, x). split; [done|].
    apply list_elem_of_filter. split; [done|]. by apply elem_of_map_to_list.
Qed.

Lemma clean_lookup t (d : gmap string string * gmap string Time) k :
  (clean_expired_otps later t d).1 !! k
  = (if expired later t d.2 k then None else d.1 !! k)
  ∧ (clean_expired_otps later t d).2 !! k
    = (if expired later t d.2 k then None else d.2 !! k).
Proof.
  unfold clean_expired_otps.
  destruct (foldl_drop_key (expired_keys later t d.2) d k) as [-> ->].
  unfold expired. destruct (decide (k ∈ _)) as [Hin|Hin].
  - apply elem_of_expired_keys in Hin as (x & -> & ->). done.
  - destruct (d.2 !! k) as [x|] eqn:Hx; [|done].
    destruct (later t x) eqn:Hl; [|done].
    destruct Hin. apply elem_of_expired_keys. eauto.
Qed.

(** X29. clean_expired_otps removes from both dictionaries exactly the
    keys whose expiry lies before the current time: such a key is in
    neither dictionary afterwards, every other entry of either
    dictionary is as before (also a code without an expiry entry), and
    a second run at the same time changes nothing. *)
Theorem clean_expired_otps_drops_exactly_the_expired t
    (d : gmap string string * gmap string Time) :
  let d' := clean_expired_otps later t d in
  (∀ k, d'.2 !! k = match d.2 !! k with
                    | Some x => if later t x then None else Some x
                    | None => None
                    end)
  ∧ (∀ k, d'.1 !! k = match d.2 !! k with
                      | Some x => if later t x then None else d.1 !! k
                      | None => d.1 !! k
                      end)
  ∧ clean_expired_otps later t d' = d'.
Proof.
  simpl. split_and!.
  - intros k. destruct (clean_lookup t d k) as [_ ->]. unfold expired.
    destruct (d.2 !! k) as [x|]; [|done]. by destruct (later t x).
  - intros k. destruct (clean_lookup t d k) as [-> _]. unfold expired.
    by destruct (d.2 !! k) as [x|].
  - assert (Hnone : ∀ k, expired later t (clean_expired_otps later t d).2 k = false).
    { intros k. unfold expired at 1.
      destruct (clean_lookup t d k) as [_ ->]. unfold expired.
      destruct (d.2 !! k) as [x|]; [|done]. by destruct (later t x) eqn:Hl. }
    destruct (clean_expired_otps later t (clean_expired_otps later t d))
      as [a b] eqn:Hab.
    destruct (clean_expired_otps later t d) as [a0 b0] eqn:Hab0.
    f_equal; apply map_eq; intros k.
    + pose proof (clean_lookup t (a0, b0) k) as [H _].
      rewrite Hab in H. simpl in H. rewrite H. by rewrite Hnone.
    + pose proof (clean_lookup t (a0, b0) k) as [_ H].
      rewrite Hab in H. simpl in H. rewrite H. by rewrite Hnone.
Qed.

End cleaning.
